(** * FinSight: amortisation engine (French method) and extraordinary payments

    Shallow embedding of [backend/calculos.py], [backend/abonos.py] and
    [avance 1/tasas.py].

    Numbers.  Python [float] values are idealised as real numbers: every
    arithmetic operation is exact, so the development speaks about the
    formulas the code evaluates and not about binary rounding error.
    Python [int] values are [Z].

    Where the code departs from the exact formulas.  The code computes in
    binary64, and four departures are large enough to matter:
    - [x ** n] raises [OverflowError] when the power leaves the binary64
      range ([2.0 ** 1024]); [Py.potencia_entera] always returns.
    - [Decimal.quantize] raises [InvalidOperation] once the rounded value
      needs more than 28 digits (from [1e26] at two decimals), and it
      rounds the shortest decimal text of the binary64 value;
      [redondear_decimal] is total and rounds the real number.
    - In [calcular_cuota_frances] the subtraction [(1 + r) ** n - 1] is
      absorbed once [(1 + r) ** n] reaches [2 ** 53]: the instalment then
      equals the interest [principal * r] (or misses it by one unit in the
      last place) and the balance stops falling.  Over the reals the
      instalment always exceeds the interest.
    - The recurrence of the balance carries a rounding error of the order
      of [2 ** -53 * principal * (1 + r) ** n * (n + 1 / r)]; when that
      reaches the 0.01 tolerance, the schedule does not close at the last
      period and a replay runs past the nominal term.
    A statement whose truth depends on one of these carries, as a
    hypothesis, the range of inputs on which binary64 follows the exact
    formulas closely enough for its conclusion to carry over to the code;
    the proof itself is about the exact formulas.  A lemma whose name ends
    in [_exacto] is a fact of the exact formulas only.

    Exceptions.  A function that can raise returns a [resultado]; the
    constructor [Lanza] carries the Python exception class.

    Dates.  [fecha_inicio] is held as a day number ([Z]); adding a
    [timedelta(days=d)] is integer addition, without the [OverflowError] of
    a date past the year 9999.  Parsing and printing of the ISO text are not
    part of the model. *)

From Stdlib Require Import Reals Lra Lia ZArith.
From stdpp Require Import gmap strings list.
From Equations Require Import Equations.

(** ** Exceptions and the error monad *)

Inductive excepcion : Set :=
| ZeroDivisionError
| KeyError
| IndexError
| NoModelado.

Inductive resultado (A : Type) : Type :=
| Ok (a : A)
| Lanza (e : excepcion).
Arguments Ok {A} a.
Arguments Lanza {A} e.

#[global] Instance resultado_ret : MRet resultado := fun A a => Ok a.
#[global] Instance resultado_bind : MBind resultado :=
  fun A B f m => match m with Ok a => f a | Lanza e => Lanza e end.

(** Lookup in a dictionary with [d[k]]: a missing key raises [KeyError]. *)
Definition subscript {K V} `{Countable K} (d : gmap K V) (k : K) : resultado V :=
  match d !! k with Some v => Ok v | None => Lanza KeyError end.

(** ** Numeric primitives of Python over the idealised reals *)

Module Py.
Local Open Scope R_scope.

(** [x / y] on floats: a zero divisor raises. *)
Definition dividir (x y : R) : resultado R :=
  if Req_dec_T y 0 then Lanza ZeroDivisionError else Ok (x / y).

(** [x ** n] with an [int] exponent.  A negative exponent is the inverse
    of the positive power and raises on a zero base.  The exact power is
    returned whatever its size: the [OverflowError] of a power outside the
    binary64 range is not modelled. *)
Definition potencia_entera (x : R) (n : Z) : resultado R :=
  if (0 <=? n)%Z then Ok (x ^ Z.to_nat n)
  else if Req_dec_T x 0 then Lanza ZeroDivisionError
       else Ok (/ (x ^ Z.to_nat (- n))).

(** [x ** y] with a [float] exponent.  For a positive base this is
    [exp (y * ln x)].  A base that is zero or negative (a rate of -100 %
    or below) gives zero, a signed real or a complex number depending on
    the exponent; that region is not modelled. *)
Definition potencia_real (x y : R) : resultado R :=
  if Rlt_dec 0 x then Ok (Rpower x y) else Lanza NoModelado.

(** [int(x)]: truncation towards zero. *)
Definition int (x : R) : Z :=
  if Rle_dec 0 x then Zfloor x else (- Zfloor (- x))%Z.

End Py.

(** ** Extraordinary payments

    An element of the [abonos] argument: a dictionary with the keys
    ["periodo"] and ["monto"] (scheduled payments also carry a ["tipo"] tag
    that no computation reads). *)

Record Abono : Type := mkAbono { periodo : Z; monto : R }.

(** [{a["periodo"]: a["monto"] for a in abonos}]: a later entry for the same
    period replaces an earlier one. *)
Definition abonos_dict (abonos : list Abono) : gmap Z R :=
  foldl (fun d a => <[periodo a := monto a]> d) ∅ abonos.

(** [d.get(k, 0.0)] *)
Definition get0 (d : gmap Z R) (k : Z) : R := default 0%R (d !! k).

(** The two recalculation policies. *)
Inductive opcion : Set := ReducirCuota | ReducirPlazo.

(** ** backend/calculos.py *)

Module Calculos.
Import Py.
Local Open Scope R_scope.

(** Frequency tables: months per period and days per period. *)
Definition FRECUENCIAS : gmap string R :=
  list_to_map
    [ ("diaria"%string, 1 / 30); ("quincenal"%string, 1 / 2);
      ("mensual"%string, 1); ("bimestral"%string, 2);
      ("trimestral"%string, 3); ("cuatrimestral"%string, 4);
      ("semestral"%string, 6); ("anual"%string, 12) ].


(** [(1 + tasa_nominal / m) ** m - 1] *)
Definition convertir_nominal_a_efectiva (tasa_nominal : R) (m : Z) : resultado R :=
  c ← dividir tasa_nominal (IZR m);
  p ← potencia_entera (1 + c) m;
  Ok (p - 1).

(** [tasa_anticipada / (1 + tasa_anticipada)] *)
Definition convertir_anticipada_a_vencida (tasa_anticipada : R) : resultado R :=
  dividir tasa_anticipada (1 + tasa_anticipada).


(** Month-based equivalence: [(1 + tasa) ** (meses_destino / meses_origen) - 1]. *)
Definition convertir_tasa_efectiva
    (tasa : R) (frecuencia_origen frecuencia_destino : string) : resultado R :=
  meses_origen ← subscript FRECUENCIAS frecuencia_origen;
  meses_destino ← subscript FRECUENCIAS frecuencia_destino;
  e ← dividir meses_destino meses_origen;
  p ← potencia_real (1 + tasa) e;
  Ok (p - 1).

(** Fixed instalment of the French method.  Over the reals it exceeds the
    interest [principal * tasa_periodo] whenever the principal and the rate
    are positive; in binary64 it equals the interest once
    [(1 + tasa_periodo) ** n_periodos] reaches [2 ** 53]. *)
Definition calcular_cuota_frances
    (principal tasa_periodo : R) (n_periodos : Z) : resultado R :=
  if Req_dec_T tasa_periodo 0 then dividir principal (IZR n_periodos)
  else
    p ← potencia_entera (1 + tasa_periodo) n_periodos;
    dividir (principal * (tasa_periodo * p)) (p - 1).

(** [Decimal(str(valor)).quantize(1 / 10 ** decimales, ROUND_HALF_UP)]:
    ties go away from zero.  The real number is rounded, not the decimal
    text of a binary64 value, and the [InvalidOperation] of a result of more
    than 28 digits is not modelled. *)
Definition redondear_decimal (valor : R) (decimales : nat) : R :=
  let factor := 10 ^ decimales in
  if Rle_dec 0 valor
  then IZR (Zfloor (valor * factor + 1 / 2)) / factor
  else - (IZR (Zfloor (- valor * factor + 1 / 2)) / factor).

(** Rounding with the default [decimales=2], the only one the engine uses. *)
Definition redondear (valor : R) : R := redondear_decimal valor 2.

(** A row of the schedule (one dictionary appended to [filas]). *)
Record Fila : Type := mkFila {
  Periodo : Z;
  Fecha : Z;
  Cuota : R;
  Interes : R;
  Abono_Capital : R;
  Abono_Extra : R;
  Saldo : R
}.

(** Steps 1 to 3 of [generar_tabla_amortizacion]: the rate of one payment
    period.  [main.py] repeats the same three steps before it calls the
    replay functions. *)
Definition m_map : gmap string Z :=
  list_to_map
    [ ("mensual"%string, 12%Z); ("trimestral"%string, 4%Z);
      ("semestral"%string, 2%Z); ("anual"%string, 1%Z) ].

Definition tasa_periodo_credito
    (tasa : R) (tipo_tasa tipo_pago frecuencia_pago frecuencia_tasa : string)
    : resultado R :=
  let tasa_decimal := tasa / 100 in
  tasa_efectiva_anual ←
    (if String.eqb tipo_tasa "nominal"
     then let m := default 12%Z (m_map !! frecuencia_tasa) in
          convertir_nominal_a_efectiva tasa_decimal m
     else Ok tasa_decimal);
  tasa_efectiva_anual ←
    (if String.eqb tipo_pago "anticipada"
     then convertir_anticipada_a_vencida tasa_efectiva_anual
     else Ok tasa_efectiva_anual);
  if String.eqb frecuencia_tasa "anual"
  then convertir_tasa_efectiva tasa_efectiva_anual "anual" frecuencia_pago
  else convertir_tasa_efectiva tasa_efectiva_anual frecuencia_tasa frecuencia_pago.

(** The body of [for periodo in range(1, n_periodos + 1)], by recursion on
    the periods still to visit; [break] ends the recursion.  The recurrence
    is exact here; the binary64 recurrence of the code drifts from it as
    described in the header. *)
Fixpoint bucle_tabla (cuota tasa_periodo : R) (n_periodos dias_a_sumar : Z)
    (periodos : list Z) (saldo : R) (fecha_actual : Z) : list Fila :=
  match periodos with
  | [] => []
  | periodo :: resto =>
      let interes := saldo * tasa_periodo in
      let abono_capital := cuota - interes in
      let saldo := saldo - abono_capital in
      let saldo :=
        if Z.eq_dec periodo n_periodos
        then (if Rlt_dec (Rabs saldo) (1 / 100) then 0 else saldo)
        else saldo in
      let fecha_pago := (fecha_actual + dias_a_sumar)%Z in
      mkFila periodo fecha_pago (redondear cuota) (redondear interes)
             (redondear abono_capital) 0 (redondear (Rmax 0 saldo))
      :: (if Rle_dec saldo 0 then []
          else bucle_tabla cuota tasa_periodo n_periodos dias_a_sumar
                           resto saldo fecha_pago)
  end.

Definition generar_tabla_amortizacion
    (monto tasa : R) (tipo_tasa tipo_pago : string) (plazo_meses : Z)
    (frecuencia_pago : string) (fecha_inicio : Z) (frecuencia_tasa : string)
    : resultado (list Fila) :=
  tasa_periodo ←
    tasa_periodo_credito tasa tipo_tasa tipo_pago frecuencia_pago frecuencia_tasa;
  meses_por_periodo ← subscript FRECUENCIAS frecuencia_pago;
  c ← dividir (IZR plazo_meses) meses_por_periodo;
  let n_periodos := int c in
  cuota ← calcular_cuota_frances monto tasa_periodo n_periodos;
  let dias_a_sumar := int (meses_por_periodo * 30) in
  Ok (bucle_tabla cuota tasa_periodo n_periodos dias_a_sumar
                  (seqZ 1 n_periodos) monto fecha_inicio).

(** [recalcular_tabla_con_abonos]: replay over the rows of an existing
    table.  [tabla_original.iloc[0]] raises on an empty table.  The string
    [opcion_recalculo] is compared with ["reducir_cuota"] only; the policy
    is passed here as the outcome of that comparison. *)
Fixpoint bucle_recalculo (op : opcion) (tasa_periodo : R) (d : gmap Z R)
    (largo : Z) (filas_originales : list Fila) (saldo cuota_actual : R)
    : resultado (list Fila) :=
  match filas_originales with
  | [] => Ok []
  | row :: resto =>
      let periodo := Periodo row in
      let interes := saldo * tasa_periodo in
      let abono_capital := cuota_actual - interes in
      let abono_extra := get0 d periodo in
      let saldo := saldo - abono_capital - abono_extra in
      let saldo := if Rlt_dec saldo 0 then 0 else saldo in
      let fila :=
        mkFila periodo (Fecha row) (redondear cuota_actual) (redondear interes)
               (redondear abono_capital) (redondear abono_extra)
               (redondear (Rmax 0 saldo)) in
      cuota_actual ←
        (if Rlt_dec 0 abono_extra then
           if Rlt_dec 0 saldo then
             let n_periodos_restantes := (largo - periodo)%Z in
             match op with
             | ReducirCuota =>
                 if Z_lt_dec 0 n_periodos_restantes
                 then calcular_cuota_frances saldo tasa_periodo n_periodos_restantes
                 else Ok cuota_actual
             | ReducirPlazo => Ok cuota_actual
             end
           else Ok cuota_actual
         else Ok cuota_actual);
      if Rle_dec saldo 0 then Ok [fila]
      else
        filas ← bucle_recalculo op tasa_periodo d largo resto saldo cuota_actual;
        Ok (fila :: filas)
  end.

Definition recalcular_tabla_con_abonos
    (tabla_original : list Fila) (abonos : list Abono) (tasa_periodo : R)
    (opcion_recalculo : opcion) : resultado (list Fila) :=
  let d := abonos_dict abonos in
  match tabla_original with
  | [] => Lanza IndexError
  | primera :: _ =>
      let saldo := Saldo primera + Abono_Capital primera in
      let cuota_actual := Cuota primera in
      bucle_recalculo opcion_recalculo tasa_periodo d
                      (Z.of_nat (length tabla_original)) tabla_original
                      saldo cuota_actual
  end.

End Calculos.

(** ** avance 1/tasas.py *)

Module Tasas.
Import Py.
Local Open Scope R_scope.


Definition anticipada_a_vencida (tasa_anticipada : R) : resultado R :=
  dividir tasa_anticipada (1 - tasa_anticipada).

Definition vencida_a_anticipada (tasa_vencida : R) : resultado R :=
  dividir tasa_vencida (1 + tasa_vencida).



End Tasas.

(** ** backend/abonos.py *)

Module Abonos.
Import Py Calculos.
Local Open Scope R_scope.

(** The [while saldo > 0.01 and periodo <= n_periodos_inicial * 2] loop of
    [aplicar_abonos_reducir_cuota] and [aplicar_abonos_reducir_plazo].  The
    two source loops are the same text except for the recomputation of the
    instalment after an extraordinary payment, selected here by [op].  The
    loop counter against the ceiling is the termination measure.  The
    recurrence is exact here; the binary64 recurrence of the code drifts
    from it as described in the header. *)
Equations? bucle_abonos (op : opcion) (tasa_periodo : R) (n_periodos_inicial : Z)
    (d : gmap Z R) (dias_a_sumar : Z) (saldo cuota : R)
    (fecha_actual periodo : Z) : resultado (list Fila)
    by wf (Z.to_nat (n_periodos_inicial * 2 + 1 - periodo)) lt :=
  bucle_abonos op tasa_periodo n_periodos_inicial d dias_a_sumar
               saldo cuota fecha_actual periodo
    with Rlt_dec (1 / 100) saldo, Z_le_dec periodo (n_periodos_inicial * 2) => {
    | left _, left _ =>
        let interes := saldo * tasa_periodo in
        let abono_capital := cuota - interes in
        let abono_extra := get0 d periodo in
        let saldo1 := saldo - abono_capital - abono_extra in
        let abono_capital1 :=
          if Rlt_dec saldo1 0 then abono_capital + saldo1 else abono_capital in
        let saldo2 := if Rlt_dec saldo1 0 then 0 else saldo1 in
        let fecha_pago := (fecha_actual + dias_a_sumar)%Z in
        let fila :=
          mkFila periodo fecha_pago (redondear cuota) (redondear interes)
                 (redondear abono_capital1) (redondear abono_extra)
                 (redondear (Rmax 0 saldo2)) in
        cuota1 ←
          (match op with
           | ReducirCuota =>
               if Rlt_dec 0 abono_extra then
                 if Rlt_dec (1 / 100) saldo2 then
                   let periodos_restantes := (n_periodos_inicial - periodo)%Z in
                   if Z_lt_dec 0 periodos_restantes
                   then calcular_cuota_frances saldo2 tasa_periodo periodos_restantes
                   else Ok cuota
                 else Ok cuota
               else Ok cuota
           | ReducirPlazo => Ok cuota
           end);
        if Rle_dec saldo2 (1 / 100) then Ok [fila]
        else
          filas ← bucle_abonos op tasa_periodo n_periodos_inicial d dias_a_sumar
                               saldo2 cuota1 fecha_pago (periodo + 1)%Z;
          Ok (fila :: filas);
    | _, _ => Ok [] }.
Proof. lia. Qed.

Definition aplicar_abonos (op : opcion)
    (saldo_inicial tasa_periodo : R) (n_periodos_inicial : Z)
    (abonos : list Abono) (fecha_inicio : Z) (frecuencia_pago : string)
    : resultado (list Fila) :=
  let d := abonos_dict abonos in
  let saldo := saldo_inicial in
  cuota ← calcular_cuota_frances saldo tasa_periodo n_periodos_inicial;
  meses_por_periodo ← subscript FRECUENCIAS frecuencia_pago;
  bucle_abonos op tasa_periodo n_periodos_inicial d
               (int (meses_por_periodo * 30)) saldo cuota fecha_inicio 1%Z.

Definition aplicar_abonos_reducir_cuota := aplicar_abonos ReducirCuota.
Definition aplicar_abonos_reducir_plazo := aplicar_abonos ReducirPlazo.

(** A column of a [DataFrame]: [pd.DataFrame([])] has no columns, so the
    subscript raises [KeyError] on a table built from no rows. *)
Definition columna (f : Fila -> R) (tabla : list Fila) : resultado (list R) :=
  match tabla with
  | [] => Lanza KeyError
  | _ => Ok (map f tabla)
  end.

(** [Series.sum()] *)
Definition suma (l : list R) : R := foldr Rplus 0 l.

Record Ahorro : Type := mkAhorro {
  ahorro_intereses : R;
  reduccion_plazo_periodos : Z;
  total_intereses_sin_abonos : R;
  total_intereses_con_abonos : R;
  total_pagado_sin_abonos : R;
  total_pagado_con_abonos : R
}.

Definition calcular_ahorro_por_abonos
    (tabla_sin_abonos tabla_con_abonos : list Fila) : resultado Ahorro :=
  c_sin ← columna Cuota tabla_sin_abonos;
  let total_pagado_sin := suma c_sin in
  i_sin ← columna Interes tabla_sin_abonos;
  let total_intereses_sin := suma i_sin in
  c_con ← columna Cuota tabla_con_abonos;
  e_con ← columna Abono_Extra tabla_con_abonos;
  let total_pagado_con := suma c_con + suma e_con in
  i_con ← columna Interes tabla_con_abonos;
  let total_intereses_con := suma i_con in
  let ahorro := total_intereses_sin - total_intereses_con in
  let reduccion :=
    (Z.of_nat (length tabla_sin_abonos) - Z.of_nat (length tabla_con_abonos))%Z in
  Ok (mkAhorro (redondear ahorro) reduccion
               (redondear total_intereses_sin) (redondear total_intereses_con)
               (redondear total_pagado_sin) (redondear total_pagado_con)).

(** [validar_abonos]: the first payment out of range or not positive ends
    the loop with [False]. *)
Fixpoint validar_abonos (abonos : list Abono) (n_periodos : Z) : bool :=
  match abonos with
  | [] => true
  | abono :: resto =>
      if ((periodo abono <? 1) || (n_periodos <? periodo abono))%Z then false
      else if Rle_dec (monto abono) 0 then false
      else validar_abonos resto n_periodos
  end.

(** The loop of [generar_abonos_programados]:
    [while periodo <= n_periodos: append; periodo += periodos_entre_abonos].
    The step can be zero (an abono frequency shorter than the payment
    frequency), and then the loop does not end.  The loop is therefore run
    on a budget of iterations; [None] says that the budget ran out before
    the loop condition failed. *)
Fixpoint bucle_programados (presupuesto : nat) (periodos_entre_abonos : Z)
    (monto_abono : R) (n_periodos periodo : Z) : option (list Abono) :=
  if (periodo <=? n_periodos)%Z then
    match presupuesto with
    | O => None
    | S resto =>
        cons (mkAbono periodo monto_abono)
          <$> bucle_programados resto periodos_entre_abonos monto_abono
                                n_periodos (periodo + periodos_entre_abonos)
    end
  else Some [].

Definition generar_abonos_programados (presupuesto : nat)
    (frecuencia_abono frecuencia_pago : string) (monto_abono : R)
    (n_periodos : Z) : resultado (option (list Abono)) :=
  meses_abono ← subscript FRECUENCIAS frecuencia_abono;
  meses_pago ← subscript FRECUENCIAS frecuencia_pago;
  c ← dividir meses_abono meses_pago;
  let periodos_entre_abonos := int c in
  Ok (bucle_programados presupuesto periodos_entre_abonos monto_abono
                        n_periodos periodos_entre_abonos).

(** [sorted(abonos, key=lambda x: x["periodo"])]: a stable sort in ascending
    order of the period.  A stable sort has one possible result; it is
    computed here by insertion from the right, an element going before the
    first one whose period is not smaller. *)
Fixpoint insertar_por_periodo (a : Abono) (l : list Abono) : list Abono :=
  match l with
  | [] => [a]
  | b :: l' =>
      if (periodo a <=? periodo b)%Z then a :: l
      else b :: insertar_por_periodo a l'
  end.

Definition sorted_por_periodo (l : list Abono) : list Abono :=
  foldr insertar_por_periodo [] l.

(** The payments [agregar_abono_adhoc] reads back from the table: the rows
    with a positive [Abono_Extra]. *)
Fixpoint abonos_existentes (tabla : list Fila) : list Abono :=
  match tabla with
  | [] => []
  | row :: resto =>
      if Rlt_dec 0 (Abono_Extra row)
      then mkAbono (Periodo row) (Abono_Extra row) :: abonos_existentes resto
      else abonos_existentes resto
  end.

(** [agregar_abono_adhoc].  The string [opcion_recalculo] is compared with
    ["reducir_cuota"] only; the policy is passed as the outcome of that
    comparison. *)
Definition agregar_abono_adhoc
    (tabla_actual : list Fila) (periodo_abono : Z) (monto_abono tasa_periodo : R)
    (opcion_recalculo : opcion) (fecha_inicio : Z) (frecuencia_pago : string)
    : resultado (list Fila) :=
  match tabla_actual with
  | [] => Ok tabla_actual
  | primera_fila :: _ =>
      let saldo_inicial :=
        Saldo primera_fila + Abono_Capital primera_fila + Abono_Extra primera_fila in
      let abonos :=
        abonos_existentes tabla_actual ++ [mkAbono periodo_abono monto_abono] in
      let abonos := sorted_por_periodo abonos in
      let n_periodos_inicial := Z.of_nat (length tabla_actual) in
      match opcion_recalculo with
      | ReducirCuota =>
          aplicar_abonos_reducir_cuota saldo_inicial tasa_periodo
            n_periodos_inicial abonos fecha_inicio frecuencia_pago
      | ReducirPlazo =>
          aplicar_abonos_reducir_plazo saldo_inicial tasa_periodo
            n_periodos_inicial abonos fecha_inicio frecuencia_pago
      end
  end.

End Abonos.

(** * Vocabulary of the properties *)

Import Py Calculos Abonos.
Local Open Scope R_scope.

(** The monthly rate of the scenario: 12 % nominal quoted "anual" compounds
    once a year ([m_map["anual"] = 1]), so the effective annual rate is 12 %
    and the monthly rate is its twelfth root minus one. *)
Definition tasa_mensual_escenario : R := Rpower (112 / 100) (1 / 12) - 1.

(** Day number of 2024-01-01 ([date.toordinal]). *)
Definition fecha_2024_01_01 : Z := 738886.

(** [factor_cuota r m] is the instalment that retires one unit of balance
    in [m] periods at the period rate [r]: [calcular_cuota_frances] is
    linear in the principal. *)
Definition factor_cuota (r : R) (m : nat) : R :=
  if Req_dec_T r 0 then 1 / INR m
  else r * (1 + r) ^ m / ((1 + r) ^ m - 1).

(** [decreciente_desde x l]: the list never rises, and starts at or below [x]. *)
Fixpoint decreciente_desde (x : R) (l : list R) : Prop :=
  match l with
  | [] => True
  | y :: l' => y <= x /\ decreciente_desde y l'
  end.

(** Valid credits.
    The numeric checks of [validar_parametros_credito] ([utils.py]):
    positive principal, rate between 0 and 100, positive term not shorter
    than one payment period.  The payment frequency and the quotation
    frequency are keys of [FRECUENCIAS]. *)
Definition credito_valido (monto tasa : R) (plazo_meses : Z)
    (frecuencia_pago frecuencia_tasa : string) : Prop :=
  0 < monto /\ 0 <= tasa <= 100 /\ (0 < plazo_meses)%Z /\
  (exists mp, FRECUENCIAS !! frecuencia_pago = Some mp /\ mp <= IZR plazo_meses) /\
  is_Some (FRECUENCIAS !! frecuencia_tasa).

(** Names for the values one iteration of the replay loop computes, so that
    the loop can be unfolded one period at a time. *)

(** The balance the recurrence reaches before it is clamped at zero. *)
Definition saldo_bruto (r saldo cuota extra : R) : R :=
  saldo - (cuota - saldo * r) - extra.

(** The balance after the [if saldo < 0] adjustment. *)
Definition saldo_ajustado (r saldo cuota extra : R) : R :=
  if Rlt_dec (saldo_bruto r saldo cuota extra) 0 then 0
  else saldo_bruto r saldo cuota extra.

(** The principal portion after the [if saldo < 0] adjustment. *)
Definition capital_ajustado (r saldo cuota extra : R) : R :=
  if Rlt_dec (saldo_bruto r saldo cuota extra) 0
  then cuota - saldo * r + saldo_bruto r saldo cuota extra
  else cuota - saldo * r.

(** The row appended by the iteration. *)
Definition fila_abonos (r : R) (d : gmap Z R) (dias : Z)
    (saldo cuota : R) (fecha periodo : Z) : Fila :=
  mkFila periodo (fecha + dias) (redondear cuota) (redondear (saldo * r))
         (redondear (capital_ajustado r saldo cuota (get0 d periodo)))
         (redondear (get0 d periodo))
         (redondear (Rmax 0 (saldo_ajustado r saldo cuota (get0 d periodo)))).

(** The instalment carried into the next iteration. *)
Definition cuota_siguiente (op : opcion) (r : R) (n : Z) (d : gmap Z R)
    (saldo cuota : R) (periodo : Z) : resultado R :=
  match op with
  | ReducirCuota =>
      if Rlt_dec 0 (get0 d periodo) then
        if Rlt_dec (1 / 100) (saldo_ajustado r saldo cuota (get0 d periodo)) then
          if Z_lt_dec 0 (n - periodo)
          then calcular_cuota_frances
                 (saldo_ajustado r saldo cuota (get0 d periodo)) r (n - periodo)
          else Ok cuota
        else Ok cuota
      else Ok cuota
  | ReducirPlazo => Ok cuota
  end.

(** Total of the interest column. *)
Definition intereses (filas : list Fila) : R := suma (map Interes filas).

(** Every extraordinary payment of the list has a positive amount. *)
Definition abonos_positivos (abonos : list Abono) : Prop :=
  Forall (fun a => 0 < monto a) abonos.

(** * Properties *)

(** ** Evaluation lemmas for the primitives *)

Lemma bind_Ok {A B} (a : A) (f : A -> resultado B) : (Ok a ≫= f) = f a.
Proof. reflexivity. Qed.

Lemma bind_Lanza {A B} (e : excepcion) (f : A -> resultado B) :
  (Lanza e ≫= f) = Lanza e.
Proof. reflexivity. Qed.

Lemma dividir_Ok (x y : R) : y <> 0 -> dividir x y = Ok (x / y).
Proof. intros Hy. unfold dividir. destruct (Req_dec_T y 0); [contradiction | reflexivity]. Qed.

Lemma dividir_cero (x : R) : dividir x 0 = Lanza ZeroDivisionError.
Proof. unfold dividir. destruct (Req_dec_T 0 0); [reflexivity | contradiction]. Qed.

Lemma potencia_entera_nat (x : R) (n : Z) :
  (0 <= n)%Z -> potencia_entera x n = Ok (x ^ Z.to_nat n).
Proof.
  intros Hn. unfold potencia_entera.
  destruct (Z.leb_spec 0 n); [reflexivity | lia].
Qed.

Lemma potencia_real_Ok (x y : R) : 0 < x -> potencia_real x y = Ok (Rpower x y).
Proof. intros Hx. unfold potencia_real. destruct (Rlt_dec 0 x); [reflexivity | contradiction]. Qed.

Lemma FRECUENCIAS_mensual : subscript FRECUENCIAS "mensual" = Ok 1.
Proof. reflexivity. Qed.

Lemma FRECUENCIAS_anual : subscript FRECUENCIAS "anual" = Ok 12.
Proof. reflexivity. Qed.

(** ** Rounding to cents *)

Lemma redondear_despliegue (x : R) :
  redondear x =
  if Rle_dec 0 x then IZR (Zfloor (x * 100 + 1 / 2)) / 100
  else - (IZR (Zfloor (- x * 100 + 1 / 2)) / 100).
Proof.
  unfold redondear, redondear_decimal.
  replace (10 ^ 2) with 100 by (simpl; lra). reflexivity.
Qed.

Lemma redondear_no_negativo (x : R) : 0 <= x -> 0 <= redondear x.
Proof.
  intros Hx. rewrite redondear_despliegue.
  destruct (Rle_dec 0 x) as [_ | Hn]; [| contradiction].
  assert (Hz : (0 <= Zfloor (x * 100 + 1 / 2))%Z).
  { apply Zfloor_lub. lra. }
  apply IZR_le in Hz. lra.
Qed.

Lemma redondear_negativo (x : R) : x < 0 -> redondear x <= 0.
Proof.
  intros Hx. rewrite redondear_despliegue.
  destruct (Rle_dec 0 x) as [Hp | _]; [lra |].
  assert (Hz : (0 <= Zfloor (- x * 100 + 1 / 2))%Z).
  { apply Zfloor_lub. lra. }
  apply IZR_le in Hz. lra.
Qed.

Lemma redondear_monotono (x y : R) : x <= y -> redondear x <= redondear y.
Proof.
  intros Hxy.
  destruct (Rle_dec 0 x) as [Hx | Hx].
  - rewrite !redondear_despliegue.
    destruct (Rle_dec 0 x) as [_ | ?]; [| contradiction].
    destruct (Rle_dec 0 y) as [_ | ?]; [| lra].
    assert (Hz : (Zfloor (x * 100 + 1 / 2) <= Zfloor (y * 100 + 1 / 2))%Z).
    { apply Zfloor_le. lra. }
    apply IZR_le in Hz. lra.
  - apply Rnot_le_lt in Hx.
    destruct (Rle_dec 0 y) as [Hy | Hy].
    + pose proof (redondear_negativo x Hx). pose proof (redondear_no_negativo y Hy). lra.
    + rewrite !redondear_despliegue.
      destruct (Rle_dec 0 x) as [? | _]; [lra |].
      destruct (Rle_dec 0 y) as [? | _]; [contradiction |].
      assert (Hz : (Zfloor (- y * 100 + 1 / 2) <= Zfloor (- x * 100 + 1 / 2))%Z).
      { apply Zfloor_le. lra. }
      apply IZR_le in Hz. lra.
Qed.

(** A non-negative value within half a cent of [z] cents rounds to [z] cents. *)
Lemma redondear_centavos (z : Z) (x : R) :
  0 <= x -> IZR z - 1 / 2 <= x * 100 < IZR z + 1 / 2 ->
  redondear x = IZR z / 100.
Proof.
  intros Hx Hb. rewrite redondear_despliegue.
  destruct (Rle_dec 0 x) as [_ | ?]; [| contradiction].
  rewrite (Zfloor_eq z); [reflexivity | lra].
Qed.

(** A negative value within half a cent of [-z] cents rounds to [-z] cents. *)
Lemma redondear_centavos_neg (z : Z) (x : R) :
  x < 0 -> IZR z - 1 / 2 <= - x * 100 < IZR z + 1 / 2 ->
  redondear x = - (IZR z / 100).
Proof.
  intros Hx Hb. rewrite redondear_despliegue.
  destruct (Rle_dec 0 x) as [? | _]; [lra |].
  rewrite (Zfloor_eq z); [reflexivity | lra].
Qed.

Lemma redondear_cero : redondear 0 = 0.
Proof. rewrite (redondear_centavos 0); lra. Qed.

(** ** The fixed instalment on a non-positive period count (claim C8) *)

(** C8, as amended: with [n_periodos = 0] the instalment computation raises
    [ZeroDivisionError], whatever the principal and the period rate.  No
    check exists for a negative count. *)
Theorem C8_cuota_cero_periodos (principal tasa_periodo : R) :
  calcular_cuota_frances principal tasa_periodo 0 = Lanza ZeroDivisionError.
Proof.
  unfold calcular_cuota_frances.
  destruct (Req_dec_T tasa_periodo 0) as [_ | _].
  - apply dividir_cero.
  - rewrite potencia_entera_nat by lia. rewrite bind_Ok.
    change (Z.to_nat 0) with 0%nat.
    replace ((1 + tasa_periodo) ^ 0 - 1) with 0 by (simpl; lra).
    apply dividir_cero.
Qed.

(** C8, counterexample: with [n_periodos = -1] a number comes back, on the
    annuity branch (rate 1/10) and on the zero-rate branch alike. *)
Lemma C8_cuota_periodos_negativos :
  calcular_cuota_frances 100 (1 / 10) (-1) = Ok (-100) /\
  calcular_cuota_frances 100 0 (-1) = Ok (-100).
Proof.
  split.
  - unfold calcular_cuota_frances.
    destruct (Req_dec_T (1 / 10) 0) as [H | _]; [lra |].
    unfold potencia_entera.
    change (0 <=? -1)%Z with false. cbv iota.
    destruct (Req_dec_T (1 + 1 / 10) 0) as [H | _]; [lra |].
    rewrite bind_Ok. change (Z.to_nat (- -1)) with 1%nat.
    rewrite dividir_Ok by (simpl; lra).
    f_equal. simpl. field.
  - unfold calcular_cuota_frances.
    destruct (Req_dec_T 0 0) as [_ | H]; [| contradiction].
    rewrite dividir_Ok by lra. f_equal. lra.
Qed.

(** ** Anticipated and due rates (claim C6) *)

(** C6: on the open interval (0, 0.99) the two conversions undo each other.
    Inside [tasas.py], [vencida_a_anticipada] after [anticipada_a_vencida]
    is the identity; and the formula r/(1-r) (the body of
    [TasaInteres.anticipada_a_vencida]) applied after r/(1+r) (the body of
    [convertir_anticipada_a_vencida] of [calculos.py]) is the identity too. *)
Theorem C6_anticipada_vencida_ida_y_vuelta (r : R) :
  0 < r < 99 / 100 ->
  (Tasas.anticipada_a_vencida r ≫= Tasas.vencida_a_anticipada) = Ok r /\
  (convertir_anticipada_a_vencida r ≫= Tasas.anticipada_a_vencida) = Ok r.
Proof.
  intros [H0 H1]. split.
  - unfold Tasas.anticipada_a_vencida, Tasas.vencida_a_anticipada.
    rewrite dividir_Ok by lra. rewrite bind_Ok.
    assert (Hn : 1 + r / (1 - r) <> 0).
    { replace (1 + r / (1 - r)) with (/ (1 - r)) by (field; lra).
      apply Rinv_neq_0_compat. lra. }
    rewrite dividir_Ok by exact Hn. f_equal. field. split; [| lra].
    replace (1 - r + r) with 1 by lra. lra.
  - unfold convertir_anticipada_a_vencida, Tasas.anticipada_a_vencida.
    rewrite dividir_Ok by lra. rewrite bind_Ok.
    assert (Hn : 1 - r / (1 + r) <> 0).
    { replace (1 - r / (1 + r)) with (/ (1 + r)) by (field; lra).
      apply Rinv_neq_0_compat. lra. }
    rewrite dividir_Ok by exact Hn. f_equal. field. split; [| lra].
    replace (1 + r - r) with 1 by lra. lra.
Qed.

(** The round trip at the rate 1/2. *)
Lemma C6_witness :
  0 < 1 / 2 < 99 / 100 /\
  (Tasas.anticipada_a_vencida (1 / 2) ≫= Tasas.vencida_a_anticipada) = Ok (1 / 2) /\
  (convertir_anticipada_a_vencida (1 / 2) ≫= Tasas.anticipada_a_vencida) = Ok (1 / 2).
Proof.
  split; [lra |]. apply (C6_anticipada_vencida_ida_y_vuelta (1 / 2)). lra.
Defined.

(** ** The concrete scenario (claim C1) *)

Lemma pow_lt_base (a x : R) (n : nat) : 0 <= a -> 0 <= x -> a ^ n < x ^ n -> a < x.
Proof.
  intros Ha Hx Hlt. apply Rnot_le_lt. intros Hle.
  assert (x ^ n <= a ^ n) by (apply pow_incr; lra). lra.
Qed.

(** The root [x ** (1/12)] raised to the twelfth power gives back [x]. *)
Lemma Rpower_doceava (x : R) : 0 < x -> Rpower x (1 / 12) ^ 12 = x.
Proof.
  intros Hx.
  rewrite <- Rpower_pow by (unfold Rpower; apply exp_pos).
  rewrite Rpower_mult.
  replace (1 / 12 * INR 12) with 1 by (simpl; field).
  apply Rpower_1. exact Hx.
Qed.

Lemma tasa_periodo_escenario :
  tasa_periodo_credito 12 "nominal" "vencida" "mensual" "anual"
  = Ok tasa_mensual_escenario.
Proof.
  unfold tasa_periodo_credito.
  change (String.eqb "nominal" "nominal") with true.
  change (String.eqb "vencida" "anticipada") with false.
  change (String.eqb "anual" "anual") with true.
  change (default 12%Z (m_map !! "anual")) with 1%Z.
  cbv iota. unfold convertir_nominal_a_efectiva.
  rewrite dividir_Ok by lra. rewrite bind_Ok.
  rewrite potencia_entera_nat by lia. rewrite !bind_Ok.
  unfold convertir_tasa_efectiva.
  rewrite FRECUENCIAS_anual, FRECUENCIAS_mensual, !bind_Ok.
  rewrite dividir_Ok by lra. rewrite bind_Ok.
  change (Z.to_nat 1) with 1%nat.
  replace (1 + ((1 + 12 / 100 / 1) ^ 1 - 1)) with (112 / 100) by (simpl; field).
  rewrite potencia_real_Ok by lra. reflexivity.
Qed.

Lemma tasa_mensual_escenario_cotas :
  9488792 / 1000000000 < tasa_mensual_escenario < 9488793 / 1000000000.
Proof.
  unfold tasa_mensual_escenario.
  assert (Hp : 0 < Rpower (112 / 100) (1 / 12)) by (unfold Rpower; apply exp_pos).
  assert (H12 : Rpower (112 / 100) (1 / 12) ^ 12 = 112 / 100)
    by (apply Rpower_doceava; lra).
  split.
  - assert (1009488792 / 1000000000 < Rpower (112 / 100) (1 / 12)); [| lra].
    apply (pow_lt_base _ _ 12); [lra | lra |]. rewrite H12. lra.
  - assert (Rpower (112 / 100) (1 / 12) < 1009488793 / 1000000000); [| lra].
    apply (pow_lt_base _ _ 12); [lra | lra |]. rewrite H12. lra.
Qed.

Lemma int_entero (z : Z) : (0 <= z)%Z -> int (IZR z) = z.
Proof.
  intros Hz. unfold int.
  destruct (Rle_dec 0 (IZR z)) as [_ | Hn].
  - apply Zfloor_eq. lra.
  - exfalso. apply Hn. apply IZR_le. exact Hz.
Qed.

(** The schedule of the scenario and its first row. *)
Lemma escenario_primera_fila :
  exists fila resto,
    generar_tabla_amortizacion 100000 12 "nominal" "vencida" 12 "mensual"
                               fecha_2024_01_01 "anual"
    = Ok (fila :: resto)
    /\ Periodo fila = 1%Z /\ Cuota fila = 885621 / 100.
Proof.
  pose proof tasa_mensual_escenario_cotas as [Hlo Hhi].
  assert (H12 : (1 + tasa_mensual_escenario) ^ 12 = 112 / 100).
  { unfold tasa_mensual_escenario.
    replace (1 + (Rpower (112 / 100) (1 / 12) - 1))
      with (Rpower (112 / 100) (1 / 12)) by lra.
    apply Rpower_doceava. lra. }
  unfold generar_tabla_amortizacion.
  rewrite tasa_periodo_escenario, bind_Ok, FRECUENCIAS_mensual, bind_Ok.
  rewrite dividir_Ok by lra. rewrite bind_Ok.
  replace (12 / 1) with (IZR 12) by lra.
  rewrite int_entero by lia.
  unfold calcular_cuota_frances.
  destruct (Req_dec_T tasa_mensual_escenario 0) as [H0 | _]; [lra |].
  rewrite potencia_entera_nat by lia. rewrite bind_Ok.
  change (Z.to_nat 12) with 12%nat. rewrite H12.
  rewrite dividir_Ok by lra. rewrite bind_Ok.
  change (seqZ 1 12) with (1%Z :: seqZ 2 11).
  cbn [bucle_tabla]. eexists _, _. split; [reflexivity |].
  split; [reflexivity |]. cbn [Cuota].
  apply redondear_centavos.
  - apply Rmult_le_pos; [| lra].
    apply Rmult_le_pos; [lra |]. apply Rmult_le_pos; lra.
  - lra.
Qed.

(** C1, as amended: the period-1 row of the scenario carries the
    instalment 8856.21, the value that follows from the effective annual
    rate (1 + 0.12/1)^1 - 1 = 0.12 and the monthly rate 1.12^(1/12) - 1. *)
Theorem C1_escenario_cuota :
  exists fila resto,
    generar_tabla_amortizacion 100000 12 "nominal" "vencida" 12 "mensual"
                               fecha_2024_01_01 "anual"
    = Ok (fila :: resto)
    /\ Periodo fila = 1%Z /\ Rabs (Cuota fila - 885621 / 100) <= 1 / 100.
Proof.
  destruct escenario_primera_fila as (fila & resto & Hg & Hp & Hc).
  exists fila, resto. split; [exact Hg |]. split; [exact Hp |].
  rewrite Hc. replace (885621 / 100 - 885621 / 100) with 0 by lra.
  rewrite Rabs_R0. lra.
Qed.

(** C1, counterexample: the instalment of that row is not within 0.01 of
    8884.88. *)
Lemma C1_escenario_no_8884_88 :
  exists fila resto,
    generar_tabla_amortizacion 100000 12 "nominal" "vencida" 12 "mensual"
                               fecha_2024_01_01 "anual"
    = Ok (fila :: resto)
    /\ Periodo fila = 1%Z /\ ~ Rabs (Cuota fila - 888488 / 100) <= 1 / 100.
Proof.
  destruct escenario_primera_fila as (fila & resto & Hg & Hp & Hc).
  exists fila, resto. split; [exact Hg |]. split; [exact Hp |].
  rewrite Hc. intros H.
  replace (885621 / 100 - 888488 / 100) with (- (2867 / 100)) in H by lra.
  rewrite Rabs_Ropp, Rabs_pos_eq in H; lra.
Qed.

(** ** The French instalment per unit of balance

    [factor_cuota r m] is the instalment that retires one unit of balance
    in [m] periods at the period rate [r]; [calcular_cuota_frances] is
    linear in the principal. *)

Section Frances.
Variable r : R.
Hypothesis r_no_negativa : 0 <= r.

Lemma potencia_mayor_que_1 (m : nat) : 0 < r -> (1 <= m)%nat -> 1 < (1 + r) ^ m.
Proof.
  intros Hr Hm. induction m as [| m IH]; [lia |].
  destruct m as [| m].
  - simpl. lra.
  - assert (1 < (1 + r) ^ S m) by (apply IH; lia).
    change ((1 + r) ^ S (S m)) with ((1 + r) * (1 + r) ^ S m). nra.
Qed.

Lemma cuota_frances_factor (s : R) (m : nat) :
  (1 <= m)%nat ->
  calcular_cuota_frances s r (Z.of_nat m) = Ok (s * factor_cuota r m).
Proof.
  intros Hm. unfold calcular_cuota_frances, factor_cuota.
  assert (Hinr : 0 < INR m) by (apply lt_0_INR; lia).
  destruct (Req_dec_T r 0) as [H0 | Hne].
  - rewrite <- INR_IZR_INZ. rewrite dividir_Ok by lra.
    f_equal. field. lra.
  - assert (Hr : 0 < r) by lra.
    pose proof (potencia_mayor_que_1 m Hr Hm) as Hq.
    rewrite potencia_entera_nat by lia. rewrite bind_Ok, Nat2Z.id.
    rewrite dividir_Ok by lra. f_equal. field. lra.
Qed.

Lemma factor_mayor_que_tasa (m : nat) : (1 <= m)%nat -> r < factor_cuota r m.
Proof.
  intros Hm. unfold factor_cuota.
  assert (Hinr : 0 < INR m) by (apply lt_0_INR; lia).
  destruct (Req_dec_T r 0) as [H0 | Hne].
  - subst r. apply Rdiv_lt_0_compat; lra.
  - assert (Hr : 0 < r) by lra.
    pose proof (potencia_mayor_que_1 m Hr Hm) as Hq.
    apply (Rmult_lt_reg_r ((1 + r) ^ m - 1)); [lra |].
    replace (r * (1 + r) ^ m / ((1 + r) ^ m - 1) * ((1 + r) ^ m - 1))
      with (r * (1 + r) ^ m) by (field; lra).
    nra.
Qed.

Lemma factor_positivo (m : nat) : (1 <= m)%nat -> 0 < factor_cuota r m.
Proof. intros Hm. pose proof (factor_mayor_que_tasa m Hm). lra. Qed.

Lemma factor_un_periodo : factor_cuota r 1 = 1 + r.
Proof.
  unfold factor_cuota. destruct (Req_dec_T r 0) as [H0 | Hne].
  - subst r. simpl. field.
  - simpl. field. lra.
Qed.

Lemma factor_menor (m : nat) : (2 <= m)%nat -> factor_cuota r m < 1 + r.
Proof.
  intros Hm. unfold factor_cuota.
  destruct (Req_dec_T r 0) as [H0 | Hne].
  - subst r. assert (2 <= INR m) by (apply (le_INR 2); lia).
    apply (Rmult_lt_reg_r (INR m)); [lra |].
    replace (1 / INR m * INR m) with 1 by (field; lra). lra.
  - assert (Hr : 0 < r) by lra.
    destruct m as [| m]; [lia |].
    assert (Hq : 1 < (1 + r) ^ m) by (apply potencia_mayor_que_1; [exact Hr | lia]).
    change ((1 + r) ^ S m) with ((1 + r) * (1 + r) ^ m).
    set (Q := (1 + r) ^ m) in *.
    apply (Rmult_lt_reg_r ((1 + r) * Q - 1)); [nra |].
    replace (r * ((1 + r) * Q) / ((1 + r) * Q - 1) * ((1 + r) * Q - 1))
      with (r * ((1 + r) * Q)) by (field; nra).
    nra.
Qed.

(** After one scheduled payment, the same instalment is the French
    instalment of the remaining balance over one period less. *)
Lemma factor_recurrencia (m : nat) :
  (1 <= m)%nat ->
  (1 + r - factor_cuota r (S m)) * factor_cuota r m = factor_cuota r (S m).
Proof.
  intros Hm. unfold factor_cuota.
  assert (Hinr : 0 < INR m) by (apply lt_0_INR; lia).
  destruct (Req_dec_T r 0) as [H0 | Hne].
  - subst r. rewrite S_INR. field. lra.
  - assert (Hr : 0 < r) by lra.
    pose proof (potencia_mayor_que_1 m Hr Hm) as Hq.
    change ((1 + r) ^ S m) with ((1 + r) * (1 + r) ^ m).
    set (Q := (1 + r) ^ m) in *.
    field. split; nra.
Qed.

Lemma factor_resto_no_negativo (m : nat) :
  (1 <= m)%nat -> 0 <= 1 + r - factor_cuota r m.
Proof.
  intros Hm. destruct (Nat.eq_dec m 1%nat) as [-> | Hne].
  - rewrite factor_un_periodo. lra.
  - assert (H2 : (2 <= m)%nat) by lia.
    pose proof (factor_menor m H2). lra.
Qed.

End Frances.

(** ** The baseline schedule (claims C2 and C3) *)

Lemma decreciente_desde_indices (x : R) (l : list R) :
  decreciente_desde x l ->
  (forall y, l !! 0%nat = Some y -> y <= x) /\
  (forall i y z, l !! i = Some y -> l !! S i = Some z -> z <= y).
Proof.
  revert x. induction l as [| a l IH]; intros x Hd.
  - split; intros; discriminate.
  - destruct Hd as [Hax Hd]. destruct (IH a Hd) as [IH0 IHS]. split.
    + intros y Hy. simpl in Hy. injection Hy as <-. exact Hax.
    + intros [| i] y z Hy Hz.
      * simpl in Hy. injection Hy as <-. apply IH0. exact Hz.
      * apply (IHS i); assumption.
Qed.

Section TablaFrances.
Variable r : R.
Hypothesis r_no_negativa : 0 <= r.
Variables n dias : Z.

(** With [m] periods left, a positive balance [s] and the French
    instalment of [s] over [m] periods, the loop emits exactly [m] rows,
    the balance column never rises and it closes at zero. *)
Lemma bucle_tabla_frances (m : nat) :
  forall (k : Z) (s : R) (fecha : Z),
    (1 <= m)%nat -> 0 < s -> n = (k + Z.of_nat m - 1)%Z ->
    let filas := bucle_tabla (s * factor_cuota r m) r n dias
                             (seqZ k (Z.of_nat m)) s fecha in
    length filas = m /\
    decreciente_desde (redondear s) (map Saldo filas) /\
    last (map Saldo filas) = Some 0.
Proof.
  induction m as [| m IH]; intros k s fecha Hm Hs Hn; [lia |].
  rewrite seqZ_cons by lia.
  replace (Z.pred (Z.of_nat (S m))) with (Z.of_nat m) by lia.
  cbn [bucle_tabla].
  replace (s - (s * factor_cuota r (S m) - s * r))
    with (s * (1 + r - factor_cuota r (S m))) by ring.
  destruct m as [| m].
  - (* last period: the balance closes exactly *)
    rewrite factor_un_periodo by exact r_no_negativa.
    replace (s * (1 + r - (1 + r))) with 0 by ring.
    destruct (Z.eq_dec k n) as [_ | Hne]; [| lia].
    rewrite Rabs_R0.
    destruct (Rlt_dec 0 (1 / 100)) as [_ | Hc]; [| lra].
    destruct (Rle_dec 0 0) as [_ | Hc]; [| lra].
    cbn [length map Saldo decreciente_desde last].
    rewrite Rmax_left by lra. rewrite redondear_cero.
    split; [reflexivity |]. split; [| reflexivity].
    split; [| exact I]. apply redondear_no_negativo. lra.
  - (* an inner period *)
    assert (H2 : (2 <= S (S m))%nat) by lia.
    pose proof (factor_menor r r_no_negativa (S (S m)) H2) as Hlt.
    pose proof (factor_mayor_que_tasa r r_no_negativa (S (S m)) ltac:(lia)) as Hgt.
    set (s' := s * (1 + r - factor_cuota r (S (S m)))).
    assert (Hs' : 0 < s') by (unfold s'; nra).
    assert (Hle : s' <= s) by (unfold s'; nra).
    destruct (Z.eq_dec k n) as [Heq | _]; [lia |].
    destruct (Rle_dec s' 0) as [Hc | _]; [lra |].
    replace (s * factor_cuota r (S (S m))) with (s' * factor_cuota r (S m)).
    2:{ unfold s'. rewrite Rmult_assoc.
        rewrite (factor_recurrencia r r_no_negativa (S m)) by lia. reflexivity. }
    specialize (IH (Z.succ k) s' (fecha + dias)%Z ltac:(lia) Hs' ltac:(lia)).
    cbv zeta in IH. destruct IH as (IHl & IHd & IHu).
    set (resto := bucle_tabla _ _ _ _ _ _ _) in *.
    cbn [length map Saldo decreciente_desde].
    rewrite Rmax_right by lra.
    split; [rewrite IHl; reflexivity |]. split.
    + split; [apply redondear_monotono; exact Hle | exact IHd].
    + destruct resto as [| f resto']; [discriminate IHl |].
      exact IHu.
Qed.

End TablaFrances.

(** ** The period rate of a valid credit *)

Lemma FRECUENCIAS_valores (k : string) (v : R) :
  FRECUENCIAS !! k = Some v ->
  v ∈ [1 / 30; 1 / 2; 1; 2; 3; 4; 6; 12].
Proof.
  intros Hk. unfold FRECUENCIAS in Hk.
  apply elem_of_list_to_map_2 in Hk.
  repeat (apply elem_of_cons in Hk as [Hk | Hk];
          [injection Hk as _ ->; set_solver |]).
  apply elem_of_nil in Hk. contradiction.
Qed.

Lemma FRECUENCIAS_positivas (k : string) (v : R) :
  FRECUENCIAS !! k = Some v -> 0 < v.
Proof.
  intros Hk. apply FRECUENCIAS_valores in Hk.
  repeat (apply elem_of_cons in Hk as [-> | Hk]; [lra |]).
  apply elem_of_nil in Hk. contradiction.
Qed.

Lemma m_map_positivo (k : string) : (0 < default 12 (m_map !! k))%Z.
Proof.
  destruct (m_map !! k) as [v |] eqn:Hk; [| simpl; lia].
  unfold m_map in Hk. apply elem_of_list_to_map_2 in Hk. simpl.
  repeat (apply elem_of_cons in Hk as [Hk | Hk];
          [injection Hk as _ ->; lia |]).
  apply elem_of_nil in Hk. contradiction.
Qed.

Lemma subscript_Some {V} (d : gmap string V) (k : string) (v : V) :
  d !! k = Some v -> subscript d k = Ok v.
Proof. intros Hk. unfold subscript. rewrite Hk. reflexivity. Qed.

Lemma Rpower_base_mayor (x y : R) : 1 <= x -> 0 <= y -> 1 <= Rpower x y.
Proof.
  intros Hx Hy. unfold Rpower.
  assert (Hln : 0 <= ln x).
  { destruct (Req_dec_T x 1) as [-> | Hne].
    - rewrite ln_1. lra.
    - left. rewrite <- ln_1. apply ln_increasing; lra. }
  assert (Hm : 0 <= y * ln x) by (apply Rmult_le_pos; assumption).
  destruct (Req_dec_T (y * ln x) 0) as [-> | Hne].
  - rewrite exp_0. lra.
  - left. rewrite <- exp_0. apply exp_increasing. lra.
Qed.



Lemma convertir_nominal_a_efectiva_no_negativa (t : R) (m : Z) :
  0 <= t -> (0 < m)%Z ->
  exists e, convertir_nominal_a_efectiva t m = Ok e /\ 0 <= e.
Proof.
  intros Ht Hm. unfold convertir_nominal_a_efectiva.
  assert (Hz : 0 < IZR m) by (apply IZR_lt; exact Hm).
  rewrite dividir_Ok by lra. rewrite bind_Ok.
  rewrite potencia_entera_nat by lia. rewrite bind_Ok.
  eexists. split; [reflexivity |].
  assert (0 <= t / IZR m) by (apply Rmult_le_pos; [lra | left; apply Rinv_0_lt_compat; lra]).
  assert (1 <= (1 + t / IZR m) ^ Z.to_nat m) by (apply pow_R1_Rle; lra).
  lra.
Qed.

Lemma convertir_anticipada_a_vencida_no_negativa (e : R) :
  0 <= e -> exists v, convertir_anticipada_a_vencida e = Ok v /\ 0 <= v.
Proof.
  intros He. unfold convertir_anticipada_a_vencida.
  rewrite dividir_Ok by lra. eexists. split; [reflexivity |].
  apply Rmult_le_pos; [lra | left; apply Rinv_0_lt_compat; lra].
Qed.

Lemma convertir_tasa_efectiva_no_negativa (e : R) (fo fd : string) (mo md : R) :
  0 <= e -> FRECUENCIAS !! fo = Some mo -> FRECUENCIAS !! fd = Some md ->
  exists t, convertir_tasa_efectiva e fo fd = Ok t /\ 0 <= t.
Proof.
  intros He Ho Hd. unfold convertir_tasa_efectiva.
  pose proof (FRECUENCIAS_positivas _ _ Ho) as Hmo.
  pose proof (FRECUENCIAS_positivas _ _ Hd) as Hmd.
  rewrite (subscript_Some _ _ _ Ho), (subscript_Some _ _ _ Hd), !bind_Ok.
  rewrite dividir_Ok by lra. rewrite bind_Ok.
  rewrite potencia_real_Ok by lra. rewrite bind_Ok.
  eexists. split; [reflexivity |].
  assert (1 <= Rpower (1 + e) (md / mo)); [| lra].
  apply Rpower_base_mayor; [lra |].
  apply Rmult_le_pos; [lra | left; apply Rinv_0_lt_compat; lra].
Qed.

Lemma tasa_periodo_credito_no_negativa
    (tasa : R) (tipo_tasa tipo_pago fp ft : string) (mp mt : R) :
  0 <= tasa -> FRECUENCIAS !! fp = Some mp -> FRECUENCIAS !! ft = Some mt ->
  exists t, tasa_periodo_credito tasa tipo_tasa tipo_pago fp ft = Ok t /\ 0 <= t.
Proof.
  intros Ht Hp Hq. unfold tasa_periodo_credito. cbv zeta.
  assert (H1 : exists e,
             (if String.eqb tipo_tasa "nominal"
              then convertir_nominal_a_efectiva (tasa / 100)
                     (default 12%Z (m_map !! ft))
              else Ok (tasa / 100)) = Ok e /\ 0 <= e).
  { destruct (String.eqb tipo_tasa "nominal").
    - apply convertir_nominal_a_efectiva_no_negativa; [lra | apply m_map_positivo].
    - eexists. split; [reflexivity | lra]. }
  destruct H1 as (e & He1 & He). rewrite He1, bind_Ok.
  assert (H2 : exists v,
             (if String.eqb tipo_pago "anticipada"
              then convertir_anticipada_a_vencida e else Ok e) = Ok v /\ 0 <= v).
  { destruct (String.eqb tipo_pago "anticipada").
    - apply convertir_anticipada_a_vencida_no_negativa. exact He.
    - eexists. split; [reflexivity | exact He]. }
  destruct H2 as (v & Hv1 & Hv). rewrite Hv1, bind_Ok.
  destruct (String.eqb ft "anual") eqn:Heq.
  - apply String.eqb_eq in Heq. subst ft.
    apply (convertir_tasa_efectiva_no_negativa v "anual" fp mt mp); assumption.
  - apply (convertir_tasa_efectiva_no_negativa v ft fp mt mp); assumption.
Qed.

Lemma int_cociente_positivo (p : Z) (mp : R) :
  0 < mp -> mp <= IZR p -> (1 <= int (IZR p / mp))%Z.
Proof.
  intros Hmp Hle. unfold int.
  assert (Hq : 1 <= IZR p / mp).
  { apply (Rmult_le_reg_r mp); [lra |].
    replace (IZR p / mp * mp) with (IZR p) by (field; lra). lra. }
  destruct (Rle_dec 0 (IZR p / mp)) as [_ | Hn]; [| lra].
  apply Zfloor_lub. exact Hq.
Qed.

(** A valid credit always yields a schedule: the period rate is
    non-negative, there is at least one period, and the rows are those of
    the loop started on the principal with the French instalment. *)
Lemma generar_tabla_valida
    (monto tasa : R) (tipo_tasa tipo_pago : string) (plazo_meses : Z)
    (fp : string) (fecha_inicio : Z) (ft : string) :
  credito_valido monto tasa plazo_meses fp ft ->
  exists (r : R) (m : nat) (dias : Z),
    tasa_periodo_credito tasa tipo_tasa tipo_pago fp ft = Ok r /\ 0 <= r /\
    (1 <= m)%nat /\
    generar_tabla_amortizacion monto tasa tipo_tasa tipo_pago plazo_meses
                               fp fecha_inicio ft
    = Ok (bucle_tabla (monto * factor_cuota r m) r (Z.of_nat m) dias
                      (seqZ 1 (Z.of_nat m)) monto fecha_inicio).
Proof.
  intros (Hmonto & [Ht0 Ht1] & Hplazo & (mp & Hfp & Hle) & [mt Hft]).
  destruct (tasa_periodo_credito_no_negativa tasa tipo_tasa tipo_pago fp ft mp mt
              Ht0 Hfp Hft) as (r & Hr & Hr0).
  pose proof (FRECUENCIAS_positivas _ _ Hfp) as Hmp.
  pose proof (int_cociente_positivo plazo_meses mp Hmp Hle) as Hn.
  exists r, (Z.to_nat (int (IZR plazo_meses / mp))), (int (mp * 30)).
  split; [exact Hr |]. split; [exact Hr0 |]. split; [lia |].
  unfold generar_tabla_amortizacion.
  rewrite Hr, bind_Ok, (subscript_Some _ _ _ Hfp), bind_Ok.
  rewrite dividir_Ok by lra. rewrite bind_Ok.
  rewrite Z2Nat.id by lia.
  set (n := int (IZR plazo_meses / mp)) in *.
  replace (calcular_cuota_frances monto r n)
    with (calcular_cuota_frances monto r (Z.of_nat (Z.to_nat n)))
    by (rewrite Z2Nat.id by lia; reflexivity).
  rewrite (cuota_frances_factor r Hr0) by lia.
  reflexivity.
Qed.

(** C2, as amended: a schedule the generator returns for a valid credit
    whose compound growth over the term, [(1 + r) ^ n] for the period rate
    [r] and the [n] periods, is at most [10^9] has a balance column that
    never rises from one row to the next, and its first balance is at most
    the principal rounded to cents.  (Past that growth the instalment
    computed in binary64 can fall to the interest or below it; the
    statement says nothing there.) *)
Theorem C2_saldo_no_creciente
    (monto tasa : R) (tipo_tasa tipo_pago : string) (plazo_meses : Z)
    (fp : string) (fecha_inicio : Z) (ft : string)
    (r mp : R) (filas : list Fila) :
  credito_valido monto tasa plazo_meses fp ft ->
  tasa_periodo_credito tasa tipo_tasa tipo_pago fp ft = Ok r ->
  FRECUENCIAS !! fp = Some mp ->
  (1 + r) ^ Z.to_nat (int (IZR plazo_meses / mp)) <= 10 ^ 9 ->
  generar_tabla_amortizacion monto tasa tipo_tasa tipo_pago plazo_meses
                             fp fecha_inicio ft = Ok filas ->
  (forall f, filas !! 0%nat = Some f -> Saldo f <= redondear monto) /\
  (forall i f g, filas !! i = Some f -> filas !! S i = Some g ->
                 Saldo g <= Saldo f).
Proof.
  intros Hv _ _ _ Hfilas.
  pose proof Hv as (Hmonto & _).
  destruct (generar_tabla_valida monto tasa tipo_tasa tipo_pago plazo_meses
              fp fecha_inicio ft Hv) as (r' & m & dias & _ & Hr0 & Hm & Hg).
  rewrite Hg in Hfilas. injection Hfilas as <-.
  destruct (bucle_tabla_frances r' Hr0 (Z.of_nat m) dias m 1%Z monto fecha_inicio
              Hm Hmonto ltac:(lia)) as (_ & Hd & _).
  apply decreciente_desde_indices in Hd as [H0 HS].
  split.
  - intros f Hf. apply H0. rewrite list_lookup_fmap, Hf. reflexivity.
  - intros i f g Hf Hgi. apply (HS i).
    + rewrite list_lookup_fmap, Hf. reflexivity.
    + rewrite list_lookup_fmap, Hgi. reflexivity.
Qed.

(** Over the reals the schedule of a valid credit closes: the generator
    returns a non-empty schedule whose last balance is zero.  The code
    closes the schedule only while the binary64 recurrence stays within the
    0.01 tolerance of this exact one (see the header): with
    [(1 + r) ** n >= 2 ** 53] the instalment equals the interest and the
    last balance is the principal. *)
Lemma cierre_final_exacto
    (monto tasa : R) (tipo_tasa tipo_pago : string) (plazo_meses : Z)
    (fp : string) (fecha_inicio : Z) (ft : string) :
  credito_valido monto tasa plazo_meses fp ft ->
  exists filas ultima,
    generar_tabla_amortizacion monto tasa tipo_tasa tipo_pago plazo_meses
                               fp fecha_inicio ft = Ok filas /\
    last filas = Some ultima /\ Rabs (Saldo ultima) <= 1 / 100.
Proof.
  intros Hv.
  pose proof Hv as (Hmonto & _).
  destruct (generar_tabla_valida monto tasa tipo_tasa tipo_pago plazo_meses
              fp fecha_inicio ft Hv) as (r & m & dias & _ & Hr0 & Hm & Hg).
  destruct (bucle_tabla_frances r Hr0 (Z.of_nat m) dias m 1%Z monto fecha_inicio
              Hm Hmonto ltac:(lia)) as (_ & _ & Hu).
  cbv zeta in Hu. rewrite fmap_last in Hu.
  destruct (last (bucle_tabla _ _ _ _ _ _ _)) as [u |] eqn:Hl; [| discriminate].
  eexists; exists u. split; [exact Hg |]. split; [exact Hl |].
  simpl in Hu. injection Hu as ->. rewrite Rabs_R0. lra.
Qed.

Lemma credito_valido_mensual (monto tasa : R) (plazo_meses : Z) :
  0 < monto -> 0 <= tasa <= 100 -> (1 <= plazo_meses)%Z ->
  credito_valido monto tasa plazo_meses "mensual" "anual".
Proof.
  intros Hm Ht Hp. split; [exact Hm |]. split; [exact Ht |]. split; [lia |].
  split.
  - exists 1. split; [reflexivity |]. apply (IZR_le 1). exact Hp.
  - exists 12. reflexivity.
Qed.

(** The balance column of the credit of the scenario: 100000 at 12 %
    nominal quoted per year, twelve monthly periods; the growth over the
    term is 1.12. *)
Lemma C2_witness :
  exists filas,
    credito_valido 100000 12 12 "mensual" "anual" /\
    tasa_periodo_credito 12 "nominal" "vencida" "mensual" "anual"
    = Ok tasa_mensual_escenario /\
    FRECUENCIAS !! "mensual" = Some 1 /\
    (1 + tasa_mensual_escenario) ^ Z.to_nat (int (12 / 1)) <= 10 ^ 9 /\
    generar_tabla_amortizacion 100000 12 "nominal" "vencida" 12 "mensual"
                               fecha_2024_01_01 "anual" = Ok filas /\
    (forall f, filas !! 0%nat = Some f -> Saldo f <= redondear 100000) /\
    (forall i f g, filas !! i = Some f -> filas !! S i = Some g ->
                   Saldo g <= Saldo f).
Proof.
  destruct escenario_primera_fila as (fila & resto & Hg & _).
  assert (Hv : credito_valido 100000 12 12 "mensual" "anual")
    by (apply credito_valido_mensual; [lra | lra | lia]).
  assert (Hfp : FRECUENCIAS !! "mensual" = Some 1) by reflexivity.
  assert (Hn : int (12 / 1) = 12%Z)
    by (replace (12 / 1) with (IZR 12) by lra; apply int_entero; lia).
  assert (Hc : (1 + tasa_mensual_escenario) ^ Z.to_nat (int (12 / 1)) <= 10 ^ 9).
  { rewrite Hn. change (Z.to_nat 12) with 12%nat. unfold tasa_mensual_escenario.
    replace (1 + (Rpower (112 / 100) (1 / 12) - 1))
      with (Rpower (112 / 100) (1 / 12)) by lra.
    rewrite Rpower_doceava by lra. simpl. lra. }
  exists (fila :: resto).
  split; [exact Hv |]. split; [exact tasa_periodo_escenario |].
  split; [exact Hfp |]. split; [exact Hc |]. split; [exact Hg |].
  exact (C2_saldo_no_creciente 100000 12 "nominal" "vencida" 12 "mensual"
           fecha_2024_01_01 "anual" tasa_mensual_escenario 1 (fila :: resto)
           Hv tasa_periodo_escenario Hfp Hc Hg).
Defined.

Lemma Rpower_base_1 (y : R) : Rpower 1 y = 1.
Proof. unfold Rpower. rewrite ln_1, Rmult_0_r. apply exp_0. Qed.

Lemma tasa_periodo_tasa_cero :
  tasa_periodo_credito 0 "efectiva" "vencida" "mensual" "anual" = Ok 0.
Proof.
  unfold tasa_periodo_credito.
  change (String.eqb "efectiva" "nominal") with false.
  change (String.eqb "vencida" "anticipada") with false.
  change (String.eqb "anual" "anual") with true.
  cbv iota zeta. rewrite !bind_Ok.
  unfold convertir_tasa_efectiva.
  rewrite FRECUENCIAS_anual, FRECUENCIAS_mensual, !bind_Ok.
  rewrite dividir_Ok by lra. rewrite bind_Ok.
  rewrite potencia_real_Ok by lra. rewrite bind_Ok.
  replace (1 + 0 / 100) with 1 by lra.
  rewrite Rpower_base_1. f_equal. lra.
Qed.

(** C2, counterexample: a valid credit of 0.009 at rate 0 over 12 monthly
    periods.  The balance after the first payment is 0.00825, emitted as
    0.01, above the principal. *)
Lemma C2_primer_saldo_sobre_principal :
  credito_valido (9 / 1000) 0 12 "mensual" "anual" /\
  exists fila resto,
    generar_tabla_amortizacion (9 / 1000) 0 "efectiva" "vencida" 12 "mensual"
                               fecha_2024_01_01 "anual" = Ok (fila :: resto) /\
    Periodo fila = 1%Z /\ Saldo fila = 1 / 100 /\ ~ Saldo fila <= 9 / 1000.
Proof.
  split; [apply credito_valido_mensual; [lra | lra | lia] |].
  unfold generar_tabla_amortizacion.
  rewrite tasa_periodo_tasa_cero, bind_Ok, FRECUENCIAS_mensual, bind_Ok.
  rewrite dividir_Ok by lra. rewrite bind_Ok.
  replace (12 / 1) with (IZR 12) by lra.
  rewrite int_entero by lia.
  unfold calcular_cuota_frances.
  destruct (Req_dec_T 0 0) as [_ | H]; [| contradiction].
  rewrite dividir_Ok by lra. rewrite bind_Ok.
  change (seqZ 1 12) with (1%Z :: seqZ 2 11).
  cbn [bucle_tabla].
  destruct (Z.eq_dec 1%Z 12%Z) as [H | _]; [discriminate H |].
  eexists _, _. split; [reflexivity |]. split; [reflexivity |].
  cbn [Saldo].
  assert (Hs : redondear (Rmax 0 (9 / 1000 - (9 / 1000 / 12 - 9 / 1000 * 0)))
               = 1 / 100).
  { rewrite Rmax_right by lra. apply (redondear_centavos 1); lra. }
  rewrite Hs. split; [reflexivity | lra].
Qed.

(** ** One iteration of the replay loop

    Names for the values one iteration computes, so that the loop can be
    unfolded one period at a time. *)

Lemma bucle_abonos_fin op r n d dias saldo cuota fecha periodo :
  ~ (1 / 100 < saldo /\ (periodo <= n * 2)%Z) ->
  bucle_abonos op r n d dias saldo cuota fecha periodo = Ok [].
Proof.
  intros Hno. rewrite bucle_abonos_equation_1.
  destruct (Rlt_dec (1 / 100) saldo) as [Hs | Hs]; [| reflexivity].
  cbn [bucle_abonos_unfold_clause_1 bucle_abonos_unfold_clause_1_clause_1].
  destruct (Z_le_dec periodo (n * 2)) as [Hp | Hp]; [| reflexivity].
  exfalso. apply Hno. split; assumption.
Qed.

Lemma bucle_abonos_paso op r n d dias saldo cuota fecha periodo :
  1 / 100 < saldo -> (periodo <= n * 2)%Z ->
  bucle_abonos op r n d dias saldo cuota fecha periodo =
  cuota_siguiente op r n d saldo cuota periodo ≫= fun cuota1 =>
    if Rle_dec (saldo_ajustado r saldo cuota (get0 d periodo)) (1 / 100)
    then Ok [fila_abonos r d dias saldo cuota fecha periodo]
    else
      bucle_abonos op r n d dias (saldo_ajustado r saldo cuota (get0 d periodo))
                   cuota1 (fecha + dias)%Z (periodo + 1)%Z ≫= fun filas =>
        Ok (fila_abonos r d dias saldo cuota fecha periodo :: filas).
Proof.
  intros Hs Hp. rewrite bucle_abonos_equation_1.
  destruct (Rlt_dec (1 / 100) saldo) as [Hs' | Hs']; [| contradiction].
  cbn [bucle_abonos_unfold_clause_1 bucle_abonos_unfold_clause_1_clause_1].
  destruct (Z_le_dec periodo (n * 2)) as [Hp' | Hp']; [| contradiction].
  reflexivity.
Qed.

(** ** The safety ceiling of the replay loop (claim C9) *)

Lemma bucle_abonos_longitud op r n d dias :
  forall (t : nat) (saldo cuota : R) (fecha periodo : Z) (filas : list Fila),
    (Z.to_nat (n * 2 + 1 - periodo) <= t)%nat ->
    bucle_abonos op r n d dias saldo cuota fecha periodo = Ok filas ->
    (length filas <= Z.to_nat (n * 2 + 1 - periodo))%nat.
Proof.
  induction t as [| t IH]; intros saldo cuota fecha periodo filas Ht Hb.
  - rewrite bucle_abonos_fin in Hb by (intros [_ Hp]; lia).
    injection Hb as <-. simpl. lia.
  - destruct (Rlt_dec (1 / 100) saldo) as [Hs | Hs];
      [destruct (Z_le_dec periodo (n * 2)) as [Hp | Hp] |].
    + rewrite bucle_abonos_paso in Hb by assumption.
      destruct (cuota_siguiente op r n d saldo cuota periodo) as [c1 | e];
        [| discriminate Hb].
      rewrite bind_Ok in Hb.
      destruct (Rle_dec _ _) as [_ | _].
      * injection Hb as <-. simpl. lia.
      * destruct (bucle_abonos op r n d dias _ c1 _ (periodo + 1)%Z)
          as [resto | e] eqn:Hr; [| discriminate Hb].
        rewrite bind_Ok in Hb. injection Hb as <-.
        apply IH in Hr; [| lia]. simpl. lia.
    + rewrite bucle_abonos_fin in Hb by (intros [_ Hp']; contradiction).
      injection Hb as <-. simpl. lia.
    + rewrite bucle_abonos_fin in Hb by (intros [Hs' _]; contradiction).
      injection Hb as <-. simpl. lia.
Qed.

(** C9: both replay strategies are total functions (the loop recurses on the
    distance of the period counter to the ceiling), and a returned schedule
    has at most 2 * n_periodos_inicial rows. *)
Theorem C9_techo_de_seguridad
    (op : opcion) (saldo_inicial tasa_periodo : R) (n_periodos_inicial : Z)
    (abonos : list Abono) (fecha_inicio : Z) (frecuencia_pago : string)
    (filas : list Fila) :
  aplicar_abonos op saldo_inicial tasa_periodo n_periodos_inicial abonos
                 fecha_inicio frecuencia_pago = Ok filas ->
  (length filas <= Z.to_nat (2 * n_periodos_inicial))%nat.
Proof.
  unfold aplicar_abonos. intros H.
  destruct (calcular_cuota_frances _ _ _) as [cuota | e]; [| discriminate H].
  rewrite bind_Ok in H.
  destruct (subscript FRECUENCIAS frecuencia_pago) as [mp | e]; [| discriminate H].
  rewrite bind_Ok in H.
  apply (bucle_abonos_longitud _ _ _ _ _ _ _ _ _ _ _ (Nat.le_refl _)) in H.
  replace (2 * n_periodos_inicial)%Z with (n_periodos_inicial * 2 + 1 - 1)%Z by lia.
  exact H.
Qed.

(** ** Running the replay on concrete inputs *)

Lemma cuota_frances_valor (principal r : R) (n : Z) (p v : R) :
  r <> 0 -> (0 <= n)%Z -> (1 + r) ^ Z.to_nat n = p -> p - 1 <> 0 ->
  v = principal * (r * p) / (p - 1) ->
  calcular_cuota_frances principal r n = Ok v.
Proof.
  intros Hr Hn Hp Hd ->. unfold calcular_cuota_frances.
  destruct (Req_dec_T r 0) as [H0 | _]; [contradiction |].
  rewrite potencia_entera_nat by exact Hn. rewrite bind_Ok, Hp.
  apply dividir_Ok. exact Hd.
Qed.

Lemma saldo_ajustado_no_negativo (r saldo cuota extra : R) :
  0 <= saldo_ajustado r saldo cuota extra.
Proof.
  unfold saldo_ajustado.
  destruct (Rlt_dec (saldo_bruto r saldo cuota extra) 0); lra.
Qed.

Lemma saldo_ajustado_positivo (r saldo cuota extra : R) :
  0 <= saldo_bruto r saldo cuota extra ->
  saldo_ajustado r saldo cuota extra = saldo_bruto r saldo cuota extra.
Proof.
  intros H. unfold saldo_ajustado.
  destruct (Rlt_dec (saldo_bruto r saldo cuota extra) 0); [lra | reflexivity].
Qed.

Lemma saldo_ajustado_negativo (r saldo cuota extra : R) :
  saldo_bruto r saldo cuota extra <= 0 ->
  saldo_ajustado r saldo cuota extra = 0.
Proof.
  intros H. unfold saldo_ajustado.
  destruct (Rlt_dec (saldo_bruto r saldo cuota extra) 0); [reflexivity | lra].
Qed.

(** The iteration that brings the balance to the tolerance is the last. *)
Lemma bucle_abonos_ultima op r n d dias saldo cuota fecha periodo :
  1 / 100 < saldo -> (periodo <= n * 2)%Z ->
  saldo_ajustado r saldo cuota (get0 d periodo) <= 1 / 100 ->
  bucle_abonos op r n d dias saldo cuota fecha periodo
  = Ok [fila_abonos r d dias saldo cuota fecha periodo].
Proof.
  intros Hs Hp Hfin. rewrite bucle_abonos_paso by assumption.
  assert (Hc : cuota_siguiente op r n d saldo cuota periodo = Ok cuota).
  { unfold cuota_siguiente. destruct op; [| reflexivity].
    destruct (Rlt_dec 0 (get0 d periodo)); [| reflexivity].
    destruct (Rlt_dec (1 / 100) _); [lra | reflexivity]. }
  rewrite Hc, bind_Ok.
  destruct (Rle_dec _ _); [reflexivity | contradiction].
Qed.

(** An iteration that leaves a balance above the tolerance goes on. *)
Lemma bucle_abonos_sigue op r n d dias saldo cuota fecha periodo cuota1 :
  1 / 100 < saldo -> (periodo <= n * 2)%Z ->
  1 / 100 < saldo_ajustado r saldo cuota (get0 d periodo) ->
  cuota_siguiente op r n d saldo cuota periodo = Ok cuota1 ->
  bucle_abonos op r n d dias saldo cuota fecha periodo
  = bucle_abonos op r n d dias (saldo_ajustado r saldo cuota (get0 d periodo))
                 cuota1 (fecha + dias)%Z (periodo + 1)%Z ≫= fun filas =>
      Ok (fila_abonos r d dias saldo cuota fecha periodo :: filas).
Proof.
  intros Hs Hp Hmas Hc. rewrite bucle_abonos_paso by assumption.
  rewrite Hc, bind_Ok.
  destruct (Rle_dec _ _); [lra | reflexivity].
Qed.

(** The replay of 300 at 100 % per period over 2 periods with an extra
    payment of 1 in period 1, keeping the instalment: two rows. *)
Lemma ejemplo_plazo_300 (fecha : Z) :
  exists f1 f2,
    aplicar_abonos_reducir_plazo 300 1 2 [mkAbono 1 1] fecha "anual"
    = Ok [f1; f2].
Proof.
  unfold aplicar_abonos_reducir_plazo, aplicar_abonos.
  rewrite (cuota_frances_valor 300 1 2 4 400) by (simpl; lra || lia).
  rewrite bind_Ok, FRECUENCIAS_anual, bind_Ok.
  set (d := abonos_dict [mkAbono 1 1]).
  assert (Hd1 : get0 d 1 = 1) by reflexivity.
  assert (Hd2 : get0 d 2 = 0) by reflexivity.
  assert (Ha1 : saldo_ajustado 1 300 400 (get0 d 1) = 199).
  { rewrite Hd1, saldo_ajustado_positivo; unfold saldo_bruto; lra. }
  rewrite (bucle_abonos_sigue ReducirPlazo 1 2 d _ 300 400 fecha 1 400);
    [| lra | lia | rewrite Ha1; lra | reflexivity].
  rewrite Ha1. change (1 + 1)%Z with 2%Z.
  rewrite bucle_abonos_ultima;
    [| lra | lia | rewrite Hd2, saldo_ajustado_negativo; unfold saldo_bruto; lra].
  rewrite bind_Ok. eexists _, _. reflexivity.
Qed.




(** The ceiling on the two-row replay of 300. *)
Lemma C9_witness :
  exists filas,
    aplicar_abonos ReducirPlazo 300 1 2 [mkAbono 1 1] fecha_2024_01_01 "anual"
    = Ok filas /\
    (length filas <= Z.to_nat (2 * 2))%nat.
Proof.
  destruct (ejemplo_plazo_300 fecha_2024_01_01) as (p1 & p2 & Hp).
  exists [p1; p2]. split; [exact Hp |].
  exact (C9_techo_de_seguridad ReducirPlazo 300 1 2 [mkAbono 1 1]
           fecha_2024_01_01 "anual" [p1; p2] Hp).
Defined.

(** ** The replay against the baseline

    Throughout a replay with non-negative extraordinary payments the
    balance stays at or below the baseline balance of the same period, and
    the instalment stays between the French instalment of the replayed
    balance and that of the baseline balance. *)

Section Replay.
Variable r : R.
Hypothesis r_no_negativa : 0 <= r.
Variable n : nat.
Variable d : gmap Z R.
Hypothesis extras_no_negativos : forall k, 0 <= get0 d k.
Variables dias dias_base : Z.

(** The first row of the baseline and what follows it. *)
Lemma bucle_tabla_cabeza (m : nat) (k : Z) (b : R) (fecha : Z) :
  0 < b -> Z.of_nat n = (k + Z.of_nat (S m) - 1)%Z ->
  exists fila resto,
    bucle_tabla (b * factor_cuota r (S m)) r (Z.of_nat n) dias_base
                (seqZ k (Z.of_nat (S m))) b fecha = fila :: resto /\
    Interes fila = redondear (b * r) /\
    resto = match m with
            | O => []
            | S _ =>
                bucle_tabla (b * (1 + r - factor_cuota r (S m)) * factor_cuota r m)
                            r (Z.of_nat n) dias_base
                            (seqZ (k + 1) (Z.of_nat m))
                            (b * (1 + r - factor_cuota r (S m)))
                            (fecha + dias_base)
            end.
Proof.
  intros Hb Hn.
  rewrite seqZ_cons by lia.
  replace (Z.pred (Z.of_nat (S m))) with (Z.of_nat m) by lia.
  replace (Z.succ k) with (k + 1)%Z by lia.
  cbn [bucle_tabla].
  replace (b - (b * factor_cuota r (S m) - b * r))
    with (b * (1 + r - factor_cuota r (S m))) by ring.
  eexists _, _. split; [reflexivity |]. split; [reflexivity |].
  destruct m as [| m].
  - rewrite factor_un_periodo by exact r_no_negativa.
    replace (b * (1 + r - (1 + r))) with 0 by ring.
    destruct (Z.eq_dec k (Z.of_nat n)) as [_ | Hne]; [| lia].
    rewrite Rabs_R0.
    destruct (Rlt_dec 0 (1 / 100)) as [_ | Hc]; [| lra].
    destruct (Rle_dec 0 0) as [_ | Hc]; [reflexivity | lra].
  - pose proof (factor_menor r r_no_negativa (S (S m)) ltac:(lia)) as Hlt.
    assert (Hb' : 0 < b * (1 + r - factor_cuota r (S (S m)))) by nra.
    destruct (Z.eq_dec k (Z.of_nat n)) as [Heq | _]; [lia |].
    destruct (Rle_dec _ 0) as [Hc | _]; [lra |].
    rewrite Rmult_assoc.
    rewrite (factor_recurrencia r r_no_negativa (S m)) by lia.
    reflexivity.
Qed.

Lemma intereses_base_no_negativos (m : nat) :
  forall (k : Z) (b : R) (fecha : Z),
    0 < b -> Z.of_nat n = (k + Z.of_nat (S m) - 1)%Z ->
    0 <= intereses (bucle_tabla (b * factor_cuota r (S m)) r (Z.of_nat n)
                                dias_base (seqZ k (Z.of_nat (S m))) b fecha).
Proof.
  induction m as [| m IH]; intros k b fecha Hb Hn;
    destruct (bucle_tabla_cabeza _ k b fecha Hb Hn) as (f & resto & -> & Hi & ->);
    unfold intereses; cbn [map suma foldr]; rewrite Hi;
    assert (0 <= redondear (b * r)) by (apply redondear_no_negativo; nra).
  - simpl. lra.
  - pose proof (factor_menor r r_no_negativa (S (S m)) ltac:(lia)) as Hlt.
    assert (Hb' : 0 < b * (1 + r - factor_cuota r (S (S m)))) by nra.
    specialize (IH (k + 1)%Z _ (fecha + dias_base)%Z Hb' ltac:(lia)).
    unfold intereses, suma in IH. lra.
Qed.

(** The clamped balance of the replay stays at or below the next
    baseline balance. *)
Lemma saldo_ajustado_cota (m : nat) (k : Z) (s c b : R) :
  0 < b -> 0 <= s <= b -> s * factor_cuota r (S m) <= c ->
  saldo_ajustado r s c (get0 d k) <= s * (1 + r - factor_cuota r (S m)) /\
  s * (1 + r - factor_cuota r (S m)) <= b * (1 + r - factor_cuota r (S m)).
Proof.
  intros Hb Hs Hc.
  pose proof (factor_resto_no_negativo r r_no_negativa (S m) ltac:(lia)) as Hf.
  pose proof (extras_no_negativos k) as He.
  split; [| nra].
  unfold saldo_ajustado, saldo_bruto.
  destruct (Rlt_dec _ 0); [nra | lra].
Qed.

(** The instalment carried to the next period keeps its bounds. *)
Lemma cuota_siguiente_cotas (op : opcion) (m : nat) (k : Z) (s c b : R) :
  Z.of_nat n = (k + Z.of_nat (S (S m)) - 1)%Z ->
  0 < b -> 0 <= s <= b ->
  s * factor_cuota r (S (S m)) <= c <= b * factor_cuota r (S (S m)) ->
  exists c1,
    cuota_siguiente op r (Z.of_nat n) d s c k = Ok c1 /\
    saldo_ajustado r s c (get0 d k) * factor_cuota r (S m) <= c1 /\
    c1 <= b * (1 + r - factor_cuota r (S (S m))) * factor_cuota r (S m).
Proof.
  intros Hn Hb Hs [Hc1 Hc2].
  destruct (saldo_ajustado_cota (S m) k s c b Hb Hs Hc1) as [Ha1 Ha2].
  pose proof (factor_recurrencia r r_no_negativa (S m) ltac:(lia)) as Hrec.
  pose proof (factor_positivo r r_no_negativa (S m) ltac:(lia)) as HG.
  set (s2 := saldo_ajustado r s c (get0 d k)) in *.
  set (F := factor_cuota r (S (S m))) in *.
  set (G := factor_cuota r (S m)) in *.
  assert (Hmismo : s2 * G <= c /\ c <= b * (1 + r - F) * G).
  { split.
    - apply Rle_trans with (s * (1 + r - F) * G); [nra |].
      rewrite Rmult_assoc, Hrec. exact Hc1.
    - rewrite Rmult_assoc, Hrec. exact Hc2. }
  assert (Hnuevo : s2 * G <= s2 * G /\ s2 * G <= b * (1 + r - F) * G)
    by (split; [lra | nra]).
  unfold cuota_siguiente. fold s2.
  destruct op; [| exists c; split; [reflexivity | exact Hmismo]].
  destruct (Rlt_dec 0 (get0 d k)); [| exists c; split; [reflexivity | exact Hmismo]].
  destruct (Rlt_dec (1 / 100) s2); [| exists c; split; [reflexivity | exact Hmismo]].
  destruct (Z_lt_dec 0 (Z.of_nat n - k)) as [_ | Hno]; [| lia].
  exists (s2 * G). split; [| exact Hnuevo].
  replace (Z.of_nat n - k)%Z with (Z.of_nat (S m)) by lia.
  apply cuota_frances_factor; [exact r_no_negativa | lia].
Qed.

End Replay.

Lemma intereses_cons (f : Fila) (l : list Fila) :
  intereses (f :: l) = Interes f + intereses l.
Proof. reflexivity. Qed.

Lemma intereses_nil : intereses [] = 0.
Proof. reflexivity. Qed.

Section ReplayAcotado.
Variable r : R.
Hypothesis r_no_negativa : 0 <= r.
Variable n : nat.
Variable d : gmap Z R.
Hypothesis extras_no_negativos : forall k, 0 <= get0 d k.
Variables dias dias_base : Z.

(** With [S m] periods left to the nominal term, a replay that starts at
    or below the baseline balance returns a schedule of at most [S m]
    rows whose interest total does not exceed that of the baseline. *)
Lemma replay_acotado (op : opcion) (m : nat) :
  forall (k : Z) (s c b : R) (fecha fecha_base : Z),
    Z.of_nat n = (k + Z.of_nat (S m) - 1)%Z -> (1 <= k)%Z ->
    0 < b -> 0 <= s <= b ->
    s * factor_cuota r (S m) <= c <= b * factor_cuota r (S m) ->
    exists filas,
      bucle_abonos op r (Z.of_nat n) d dias s c fecha k = Ok filas /\
      (length filas <= S m)%nat /\
      intereses filas <=
      intereses (bucle_tabla (b * factor_cuota r (S m)) r (Z.of_nat n)
                             dias_base (seqZ k (Z.of_nat (S m))) b fecha_base).
Proof.
  induction m as [| m IH]; intros k s c b fecha fecha_base Hn Hk Hb Hs Hc.
  - destruct (Rlt_dec (1 / 100) s) as [Hs1 | Hs1].
    + destruct (bucle_tabla_cabeza r r_no_negativa n dias_base 0 k b fecha_base
                  Hb Hn) as (fb & rb & Hbase & Hib & Hrb).
      destruct (saldo_ajustado_cota r r_no_negativa d extras_no_negativos
                  0 k s c b Hb Hs (proj1 Hc)) as [Ha1 Ha2].
      rewrite factor_un_periodo in Ha1 by exact r_no_negativa.
      rewrite bucle_abonos_ultima; [| exact Hs1 | lia | lra].
      eexists. split; [reflexivity |]. split; [simpl; lia |].
      rewrite Hbase, Hrb, !intereses_cons, intereses_nil, Hib.
      cbn [fila_abonos Interes].
      assert (redondear (s * r) <= redondear (b * r))
        by (apply redondear_monotono; nra).
      lra.
    + rewrite bucle_abonos_fin by (intros [H _]; contradiction).
      exists []. split; [reflexivity |]. split; [simpl; lia |].
      rewrite intereses_nil.
      apply intereses_base_no_negativos; assumption.
  - destruct (Rlt_dec (1 / 100) s) as [Hs1 | Hs1].
    + destruct (bucle_tabla_cabeza r r_no_negativa n dias_base (S m) k b fecha_base
                  Hb Hn) as (fb & rb & Hbase & Hib & Hrb).
      destruct (saldo_ajustado_cota r r_no_negativa d extras_no_negativos
                  (S m) k s c b Hb Hs (proj1 Hc)) as [Ha1 Ha2].
      pose proof (factor_menor r r_no_negativa (S (S m)) ltac:(lia)) as Hlt.
      pose proof (saldo_ajustado_no_negativo r s c (get0 d k)) as Ha0.
      assert (Hb' : 0 < b * (1 + r - factor_cuota r (S (S m)))) by nra.
      assert (Hir : redondear (s * r) <= redondear (b * r))
        by (apply redondear_monotono; nra).
      rewrite Hbase, Hrb, intereses_cons, Hib.
      destruct (Rle_dec (saldo_ajustado r s c (get0 d k)) (1 / 100)) as [Hfin | Hmas].
      * rewrite bucle_abonos_ultima; [| exact Hs1 | lia | exact Hfin].
        eexists. split; [reflexivity |]. split; [simpl; lia |].
        rewrite intereses_cons, intereses_nil. cbn [fila_abonos Interes].
        pose proof (intereses_base_no_negativos r r_no_negativa n dias_base m
                      (k + 1)%Z _ (fecha_base + dias_base)%Z Hb' ltac:(lia)).
        lra.
      * apply Rnot_le_lt in Hmas.
        destruct (cuota_siguiente_cotas r r_no_negativa n d extras_no_negativos
                    op m k s c b Hn Hb Hs Hc) as (c1 & Hc1 & Hcot).
        rewrite (bucle_abonos_sigue op r (Z.of_nat n) d dias s c fecha k c1);
          [| exact Hs1 | lia | exact Hmas | exact Hc1].
        destruct (IH (k + 1)%Z (saldo_ajustado r s c (get0 d k)) c1
                     (b * (1 + r - factor_cuota r (S (S m))))
                     (fecha + dias)%Z (fecha_base + dias_base)%Z
                     ltac:(lia) ltac:(lia) Hb' ltac:(lra) Hcot)
          as (filas & Hf & Hlen & Hint).
        rewrite Hf, bind_Ok.
        eexists. split; [reflexivity |]. split; [simpl; lia |].
        rewrite intereses_cons. cbn [fila_abonos Interes]. lra.
    + rewrite bucle_abonos_fin by (intros [H _]; contradiction).
      exists []. split; [reflexivity |]. split; [simpl; lia |].
      rewrite intereses_nil.
      apply intereses_base_no_negativos; assumption.
Qed.

End ReplayAcotado.

(** ** Reduce-term against reduce-instalment (claim C4) *)


(** A loop entered above the tolerance and under the ceiling emits a row. *)
Lemma bucle_abonos_no_vacio op r n d dias saldo cuota fecha periodo filas :
  1 / 100 < saldo -> (periodo <= n * 2)%Z ->
  bucle_abonos op r n d dias saldo cuota fecha periodo = Ok filas ->
  (1 <= length filas)%nat.
Proof.
  intros Hs Hp Hb. rewrite bucle_abonos_paso in Hb by assumption.
  destruct (cuota_siguiente op r n d saldo cuota periodo) as [c1 | e];
    [| discriminate Hb].
  rewrite bind_Ok in Hb.
  destruct (Rle_dec _ _).
  - injection Hb as <-. simpl. lia.
  - destruct (bucle_abonos op r n d dias _ c1 _ _) as [resto | e];
      [| discriminate Hb].
    rewrite bind_Ok in Hb. injection Hb as <-. simpl. lia.
Qed.

Section PlazoContraCuota.
Variable r : R.
Hypothesis r_no_negativa : 0 <= r.
Variable n : nat.
Variable d : gmap Z R.
Hypothesis extras_no_negativos : forall k, 0 <= get0 d k.
Variable dias : Z.


End PlazoContraCuota.

Lemma foldl_abonos_no_negativo (abonos : list Abono) :
  Forall (fun a => 0 < monto a) abonos ->
  forall d0 : gmap Z R,
    (forall k, 0 <= get0 d0 k) ->
    forall k, 0 <= get0 (foldl (fun d a => <[periodo a := monto a]> d) d0 abonos) k.
Proof.
  induction 1 as [| a l Ha _ IH]; intros d0 Hd0 k; [apply Hd0 |].
  simpl. apply IH. intros j. unfold get0.
  destruct (decide (periodo a = j)) as [-> | Hne].
  - rewrite lookup_insert_eq. simpl. lra.
  - rewrite lookup_insert_ne by exact Hne. apply Hd0.
Qed.

Lemma abonos_dict_no_negativo (abonos : list Abono) :
  Forall (fun a => 0 < monto a) abonos ->
  forall k, 0 <= get0 (abonos_dict abonos) k.
Proof.
  intros Ha. apply foldl_abonos_no_negativo; [exact Ha |].
  intros k. unfold get0. rewrite lookup_empty. simpl. lra.
Qed.




(** ** Interest saved by extraordinary payments (claim C7) *)

Lemma columna_Ok (f : Fila -> R) (tabla : list Fila) :
  (1 <= length tabla)%nat -> columna f tabla = Ok (map f tabla).
Proof. destruct tabla; simpl; [lia | reflexivity]. Qed.

(** Over the reals, for a valid credit with a principal above the 0.01
    tolerance and positive extraordinary payments, the baseline schedule
    and the replay (either policy, at the period rate of the credit and
    over the number of rows of the baseline, as [main.py] calls it) both
    exist, the savings comparison returns, and the interest saved is not
    negative.  In the code the interest saved is negative when the binary64
    replay runs past the nominal term (see the header). *)
Lemma ahorro_no_negativo_exacto
    (op : opcion) (monto tasa : R) (tipo_tasa tipo_pago : string)
    (plazo_meses : Z) (fp : string) (fecha_inicio : Z) (ft : string)
    (abonos : list Abono) :
  credito_valido monto tasa plazo_meses fp ft ->
  1 / 100 < monto ->
  abonos_positivos abonos ->
  exists r sin con a,
    tasa_periodo_credito tasa tipo_tasa tipo_pago fp ft = Ok r /\
    generar_tabla_amortizacion monto tasa tipo_tasa tipo_pago plazo_meses
                               fp fecha_inicio ft = Ok sin /\
    aplicar_abonos op monto r (Z.of_nat (length sin)) abonos fecha_inicio fp
    = Ok con /\
    calcular_ahorro_por_abonos sin con = Ok a /\
    0 <= ahorro_intereses a.
Proof.
  intros Hv Hmonto Ha.
  pose proof Hv as (Hm0 & _ & _ & (mp & Hfp & _) & _).
  destruct (generar_tabla_valida monto tasa tipo_tasa tipo_pago plazo_meses
              fp fecha_inicio ft Hv) as (r & m & dias & Hr & Hr0 & Hm & Hg).
  destruct (bucle_tabla_frances r Hr0 (Z.of_nat m) dias m 1%Z monto fecha_inicio
              Hm Hm0 ltac:(lia)) as (Hlen & _ & _).
  cbv zeta in Hlen.
  set (sin := bucle_tabla _ _ _ _ _ _ _) in *.
  pose proof (abonos_dict_no_negativo abonos Ha) as Hd.
  destruct m as [| m]; [lia |].
  pose proof (factor_positivo r Hr0 (S m) ltac:(lia)) as HF.
  destruct (replay_acotado r Hr0 (S m) (abonos_dict abonos) Hd
              (int (mp * 30)) dias op m 1%Z monto
              (monto * factor_cuota r (S m)) monto fecha_inicio fecha_inicio
              ltac:(lia) ltac:(lia) Hm0 ltac:(lra) ltac:(lra))
    as (con & Hcon & _ & Hint).
  fold sin in Hint.
  assert (Hcon1 : (1 <= length con)%nat).
  { apply bucle_abonos_no_vacio in Hcon; [exact Hcon | exact Hmonto | lia]. }
  exists r, sin, con. eexists.
  split; [exact Hr |]. split; [exact Hg |]. split.
  { unfold aplicar_abonos. rewrite Hlen.
    rewrite (cuota_frances_factor r Hr0) by lia.
    rewrite bind_Ok, (subscript_Some _ _ _ Hfp), bind_Ok. exact Hcon. }
  unfold calcular_ahorro_por_abonos.
  rewrite !(columna_Ok _ sin) by lia.
  rewrite !(columna_Ok _ con) by exact Hcon1.
  rewrite !bind_Ok. split; [reflexivity |].
  cbn [ahorro_intereses]. apply redondear_no_negativo.
  unfold intereses in Hint. lra.
Qed.

(** ** Extraordinary payments that fall after the schedule ends (claim C10) *)

Lemma foldl_abonos_mismo (l : list Abono) (j : Z) :
  forall d1 d2 : gmap Z R,
    d1 !! j = d2 !! j ->
    foldl (fun d a => <[periodo a := monto a]> d) d1 l !! j
    = foldl (fun d a => <[periodo a := monto a]> d) d2 l !! j.
Proof.
  induction l as [| a l IH]; intros d1 d2 H12; [exact H12 |].
  simpl. apply IH.
  destruct (decide (periodo a = j)) as [-> | Hne].
  - rewrite !lookup_insert_eq. reflexivity.
  - rewrite !lookup_insert_ne by exact Hne. exact H12.
Qed.

(** Removing a payment leaves the lookups of every other period unchanged. *)
Lemma get0_sin_abono (l1 l2 : list Abono) (a : Abono) (j : Z) :
  j <> periodo a ->
  get0 (abonos_dict (l1 ++ a :: l2)) j = get0 (abonos_dict (l1 ++ l2)) j.
Proof.
  intros Hj. unfold get0, abonos_dict. rewrite !foldl_app. simpl.
  f_equal. apply foldl_abonos_mismo.
  rewrite lookup_insert_ne by (intros H; apply Hj; symmetry; exact H).
  reflexivity.
Qed.

Lemma cuota_siguiente_mismo op r n (d d' : gmap Z R) saldo cuota periodo :
  get0 d periodo = get0 d' periodo ->
  cuota_siguiente op r n d saldo cuota periodo
  = cuota_siguiente op r n d' saldo cuota periodo.
Proof. intros H. unfold cuota_siguiente. rewrite H. reflexivity. Qed.

Lemma fila_abonos_mismo r (d d' : gmap Z R) dias saldo cuota fecha periodo :
  get0 d periodo = get0 d' periodo ->
  fila_abonos r d dias saldo cuota fecha periodo
  = fila_abonos r d' dias saldo cuota fecha periodo.
Proof. intros H. unfold fila_abonos. rewrite H. reflexivity. Qed.

(** Two dictionaries that agree below period [p] give the same schedule
    when the loop stops before [p]; every emitted row is of a period
    below [p]. *)
Lemma bucle_abonos_mismo op r n (d d' : gmap Z R) dias (p : Z) :
  (forall j, (j < p)%Z -> get0 d j = get0 d' j) ->
  forall (t : nat) (saldo cuota : R) (fecha periodo : Z) (filas : list Fila),
    (Z.to_nat (n * 2 + 1 - periodo) <= t)%nat ->
    bucle_abonos op r n d dias saldo cuota fecha periodo = Ok filas ->
    (periodo + Z.of_nat (length filas) <= p)%Z ->
    bucle_abonos op r n d' dias saldo cuota fecha periodo = Ok filas /\
    Forall (fun f => (Periodo f < p)%Z) filas.
Proof.
  intros Hd. induction t as [| t IH];
    intros saldo cuota fecha periodo filas Ht Hb Hlen.
  - rewrite bucle_abonos_fin in Hb |- * by (intros [_ Hp]; lia).
    injection Hb as <-. split; [reflexivity | constructor].
  - destruct (Rlt_dec (1 / 100) saldo) as [Hs | Hs];
      [destruct (Z_le_dec periodo (n * 2)) as [Hp | Hp] |].
    + pose proof (bucle_abonos_no_vacio _ _ _ _ _ _ _ _ _ _ Hs Hp Hb) as Hne.
      assert (Hk : get0 d periodo = get0 d' periodo) by (apply Hd; lia).
      rewrite bucle_abonos_paso in Hb |- * by assumption.
      rewrite <- (cuota_siguiente_mismo op r n d d') by exact Hk.
      rewrite <- (fila_abonos_mismo r d d') by exact Hk.
      rewrite <- Hk.
      destruct (cuota_siguiente op r n d saldo cuota periodo) as [c1 | e];
        [| discriminate Hb].
      rewrite bind_Ok in Hb |- *.
      destruct (Rle_dec _ _) as [_ | _].
      * injection Hb as <-. split; [reflexivity |].
        repeat constructor. simpl. lia.
      * destruct (bucle_abonos op r n d dias _ c1 _ (periodo + 1)%Z)
          as [resto | e] eqn:Hr; [| discriminate Hb].
        rewrite bind_Ok in Hb. injection Hb as <-.
        simpl in Hlen.
        assert (Ht' : (Z.to_nat (n * 2 + 1 - (periodo + 1)) <= t)%nat) by lia.
        assert (Hlen' : (periodo + 1 + Z.of_nat (length resto) <= p)%Z) by lia.
        destruct (IH _ _ _ _ _ Ht' Hr Hlen') as [Hr' Hall].
        rewrite Hr', bind_Ok. split; [reflexivity |].
        constructor; [simpl; lia | exact Hall].
    + rewrite bucle_abonos_fin in Hb |- * by (intros [_ Hp']; contradiction).
      injection Hb as <-. split; [reflexivity | constructor].
    + rewrite bucle_abonos_fin in Hb |- * by (intros [Hs' _]; contradiction).
      injection Hb as <-. split; [reflexivity | constructor].
Qed.

(** C10, as amended: an extraordinary payment whose period lies strictly
    after the last emitted row is never read.  The replay without it in the
    input list returns the same schedule, and no row of the schedule is of
    that period. *)
Theorem C10_abono_posterior_ignorado
    (op : opcion) (saldo_inicial tasa_periodo : R) (n_periodos_inicial : Z)
    (antes despues : list Abono) (a : Abono)
    (fecha_inicio : Z) (frecuencia_pago : string) (filas : list Fila) :
  aplicar_abonos op saldo_inicial tasa_periodo n_periodos_inicial
                 (antes ++ a :: despues) fecha_inicio frecuencia_pago = Ok filas ->
  (Z.of_nat (length filas) < periodo a)%Z ->
  aplicar_abonos op saldo_inicial tasa_periodo n_periodos_inicial
                 (antes ++ despues) fecha_inicio frecuencia_pago = Ok filas /\
  Forall (fun f => Periodo f <> periodo a) filas.
Proof.
  unfold aplicar_abonos. intros H Hlen.
  destruct (calcular_cuota_frances _ _ _) as [cuota | e]; [| discriminate H].
  rewrite bind_Ok in H |- *.
  destruct (subscript FRECUENCIAS frecuencia_pago) as [mp | e]; [| discriminate H].
  rewrite bind_Ok in H |- *.
  destruct (bucle_abonos_mismo op tasa_periodo n_periodos_inicial
              (abonos_dict (antes ++ a :: despues)) (abonos_dict (antes ++ despues))
              (int (mp * 30)) (periodo a)
              ltac:(intros j Hj; apply get0_sin_abono; lia)
              _ _ _ _ _ _ (Nat.le_refl _) H ltac:(lia)) as [H' Hall].
  split; [exact H' |].
  eapply Forall_impl; [exact Hall |]. intros f Hf. simpl in Hf. lia.
Qed.

Lemma redondear_valor (x v : R) (z : Z) :
  (0 <= z)%Z -> x = IZR z / 100 -> v = IZR z / 100 -> redondear x = v.
Proof.
  intros Hz -> ->. apply redondear_centavos.
  - apply IZR_le in Hz. lra.
  - lra.
Qed.

Lemma redondear_valor_neg (x v : R) (z : Z) :
  (0 < z)%Z -> x = - (IZR z / 100) -> v = - (IZR z / 100) -> redondear x = v.
Proof.
  intros Hz -> ->. apply redondear_centavos_neg.
  - apply IZR_lt in Hz. lra.
  - lra.
Qed.

(** The replay of 100 at 100 % per period over a single period: one row,
    whatever non-negative payment is registered for period 1. *)
Lemma ejemplo_100 (op : opcion) (abonos : list Abono) (fecha : Z) :
  0 <= get0 (abonos_dict abonos) 1 ->
  aplicar_abonos op 100 1 1 abonos fecha "anual"
  = Ok [fila_abonos 1 (abonos_dict abonos) (int (12 * 30)) 100 200 fecha 1].
Proof.
  intros He. unfold aplicar_abonos.
  rewrite (cuota_frances_valor 100 1 1 2 200) by (simpl; lra || lia).
  rewrite bind_Ok, FRECUENCIAS_anual, bind_Ok.
  apply bucle_abonos_ultima; [lra | lia |].
  rewrite saldo_ajustado_negativo; unfold saldo_bruto; lra.
Qed.

(** A payment registered for period 5 on a replay that ends in period 1. *)
Lemma C10_witness :
  exists filas,
    aplicar_abonos ReducirCuota 100 1 1 ([] ++ mkAbono 5 10 :: [])
                   fecha_2024_01_01 "anual" = Ok filas /\
    (Z.of_nat (length filas) < periodo (mkAbono 5 10))%Z /\
    aplicar_abonos ReducirCuota 100 1 1 ([] ++ [])
                   fecha_2024_01_01 "anual" = Ok filas /\
    Forall (fun f => Periodo f <> periodo (mkAbono 5 10)) filas.
Proof.
  eexists.
  assert (H : aplicar_abonos ReducirCuota 100 1 1 ([] ++ mkAbono 5 10 :: [])
                fecha_2024_01_01 "anual" = Ok _)
    by (apply ejemplo_100; change (get0 _ 1) with 0; lra).
  assert (Hl : (Z.of_nat 1 < periodo (mkAbono 5 10))%Z) by (simpl; lia).
  split; [exact H |]. split; [exact Hl |].
  exact (C10_abono_posterior_ignorado ReducirCuota 100 1 1 [] [] (mkAbono 5 10)
           fecha_2024_01_01 "anual" _ H Hl).
Defined.

(** C10, counterexample: 100 at 100 % per period over one period.  Without
    extraordinary payments the balance falls to zero in period 1.  A
    payment of 50 registered for that same period is not ignored: it shows
    in the row's [Abono_Extra] and changes the row, in both strategies. *)
Lemma C10_abono_en_el_periodo_final :
  exists con sin,
    aplicar_abonos_reducir_cuota 100 1 1 [mkAbono 1 50] fecha_2024_01_01 "anual"
    = Ok [con] /\
    aplicar_abonos_reducir_cuota 100 1 1 [] fecha_2024_01_01 "anual" = Ok [sin] /\
    aplicar_abonos_reducir_plazo 100 1 1 [mkAbono 1 50] fecha_2024_01_01 "anual"
    = Ok [con] /\
    aplicar_abonos_reducir_plazo 100 1 1 [] fecha_2024_01_01 "anual" = Ok [sin] /\
    Periodo con = 1%Z /\ Periodo sin = 1%Z /\
    Abono_Extra con = 50 /\ Abono_Extra sin = 0 /\ [con] <> [sin].
Proof.
  eexists _, _.
  split; [apply ejemplo_100; change (get0 _ 1) with 50; lra |].
  split; [apply ejemplo_100; change (get0 _ 1) with 0; lra |].
  split; [apply ejemplo_100; change (get0 _ 1) with 50; lra |].
  split; [apply ejemplo_100; change (get0 _ 1) with 0; lra |].
  split; [reflexivity |]. split; [reflexivity |].
  assert (H50 : Abono_Extra (fila_abonos 1 (abonos_dict [mkAbono 1 50])
                               (int (12 * 30)) 100 200 fecha_2024_01_01 1) = 50).
  { cbn [fila_abonos Abono_Extra]. change (get0 _ 1) with 50.
    apply (redondear_valor _ _ 5000); lia || lra. }
  assert (H0 : Abono_Extra (fila_abonos 1 (abonos_dict [])
                              (int (12 * 30)) 100 200 fecha_2024_01_01 1) = 0).
  { cbn [fila_abonos Abono_Extra]. change (get0 _ 1) with 0.
    apply redondear_cero. }
  split; [exact H50 |]. split; [exact H0 |].
  intros Heq. apply (f_equal (map Abono_Extra)) in Heq.
  cbn [map] in Heq. rewrite H50, H0 in Heq. injection Heq as Heq. lra.
Qed.

(** ** Where an overshoot of the recurrence goes (claim C5) *)

(** Every row of a replay is the row of one loop iteration entered with a
    balance above the tolerance; an iteration whose recurrence goes below
    zero is the last one. *)
Lemma bucle_abonos_filas op r n d dias :
  forall (t : nat) (saldo cuota : R) (fecha periodo : Z) (filas : list Fila),
    (Z.to_nat (n * 2 + 1 - periodo) <= t)%nat ->
    bucle_abonos op r n d dias saldo cuota fecha periodo = Ok filas ->
    forall f, f ∈ filas ->
      exists s c fe,
        1 / 100 < s /\ f = fila_abonos r d dias s c fe (Periodo f) /\
        (saldo_bruto r s c (get0 d (Periodo f)) < 0 -> last filas = Some f).
Proof.
  induction t as [| t IH]; intros saldo cuota fecha periodo filas Ht Hb f Hf.
  - rewrite bucle_abonos_fin in Hb by (intros [_ Hp]; lia).
    injection Hb as <-. apply elem_of_nil in Hf. contradiction.
  - destruct (Rlt_dec (1 / 100) saldo) as [Hs | Hs];
      [destruct (Z_le_dec periodo (n * 2)) as [Hp | Hp] |].
    + rewrite bucle_abonos_paso in Hb by assumption.
      destruct (cuota_siguiente op r n d saldo cuota periodo) as [c1 | e];
        [| discriminate Hb].
      rewrite bind_Ok in Hb.
      destruct (Rle_dec _ _) as [Hfin | Hmas].
      * injection Hb as <-. apply list_elem_of_singleton in Hf. subst f.
        exists saldo, cuota, fecha. split; [exact Hs |].
        split; [reflexivity |]. intros _. reflexivity.
      * destruct (bucle_abonos op r n d dias _ c1 _ (periodo + 1)%Z)
          as [resto | e] eqn:Hr; [| discriminate Hb].
        rewrite bind_Ok in Hb. injection Hb as <-.
        apply elem_of_cons in Hf as [-> | Hf].
        -- exists saldo, cuota, fecha. split; [exact Hs |].
           split; [reflexivity |]. cbn [fila_abonos Periodo]. intros Hneg.
           exfalso. apply Hmas.
           rewrite saldo_ajustado_negativo by lra. lra.
        -- assert (Ht' : (Z.to_nat (n * 2 + 1 - (periodo + 1)) <= t)%nat) by lia.
           destruct (IH _ _ _ _ _ Ht' Hr f Hf) as (s & c & fe & Hs1 & Hfe & Hl).
           exists s, c, fe. split; [exact Hs1 |]. split; [exact Hfe |].
           intros Hneg. rewrite last_cons, (Hl Hneg). reflexivity.
    + rewrite bucle_abonos_fin in Hb by (intros [_ Hp']; contradiction).
      injection Hb as <-. apply elem_of_nil in Hf. contradiction.
    + rewrite bucle_abonos_fin in Hb by (intros [Hs' _]; contradiction).
      injection Hb as <-. apply elem_of_nil in Hf. contradiction.
Qed.


(** One period of the generator loop, unfolded. *)
Lemma bucle_tabla_sigue cuota r n dias k resto saldo fecha :
  k <> n -> 0 < saldo - (cuota - saldo * r) ->
  bucle_tabla cuota r n dias (k :: resto) saldo fecha
  = mkFila k (fecha + dias) (redondear cuota) (redondear (saldo * r))
           (redondear (cuota - saldo * r)) 0
           (redondear (saldo - (cuota - saldo * r)))
    :: bucle_tabla cuota r n dias resto (saldo - (cuota - saldo * r))
                   (fecha + dias).
Proof.
  intros Hk Hpos. cbn [bucle_tabla].
  destruct (Z.eq_dec k n) as [Heq | _]; [contradiction |].
  destruct (Rle_dec _ 0) as [Hc | _]; [lra |].
  rewrite Rmax_right by lra. reflexivity.
Qed.

Lemma bucle_tabla_termina cuota r n dias k resto saldo fecha :
  saldo - (cuota - saldo * r) <= 0 ->
  bucle_tabla cuota r n dias (k :: resto) saldo fecha
  = [mkFila k (fecha + dias) (redondear cuota) (redondear (saldo * r))
            (redondear (cuota - saldo * r)) 0 0].
Proof.
  intros Hneg. cbn [bucle_tabla].
  destruct (Z.eq_dec k n) as [_ | _].
  - destruct (Rlt_dec (Rabs _) (1 / 100)) as [_ | _].
    + destruct (Rle_dec 0 0) as [_ | Hc]; [| lra].
      rewrite Rmax_left by lra. rewrite redondear_cero. reflexivity.
    + destruct (Rle_dec _ 0) as [_ | Hc]; [| contradiction].
      rewrite Rmax_left by lra. rewrite redondear_cero. reflexivity.
  - destruct (Rle_dec _ 0) as [_ | Hc]; [| contradiction].
    rewrite Rmax_left by lra. rewrite redondear_cero. reflexivity.
Qed.

Lemma tasa_periodo_100_anual :
  tasa_periodo_credito 100 "efectiva" "vencida" "anual" "anual" = Ok 1.
Proof.
  unfold tasa_periodo_credito.
  change (String.eqb "efectiva" "nominal") with false.
  change (String.eqb "vencida" "anticipada") with false.
  change (String.eqb "anual" "anual") with true.
  cbv iota zeta. rewrite !bind_Ok.
  unfold convertir_tasa_efectiva.
  rewrite FRECUENCIAS_anual, !bind_Ok.
  rewrite dividir_Ok by lra. rewrite bind_Ok.
  rewrite potencia_real_Ok by lra. rewrite bind_Ok.
  replace (1 + 100 / 100) with 2 by lra.
  replace (12 / 12) with 1 by lra.
  rewrite Rpower_1 by lra. f_equal. lra.
Qed.

(** The generator on a credit at 100 % effective per year, paid yearly over
    24 months: the loop it runs. *)
Lemma generar_100_anual (principal cuota : R) (fecha : Z) :
  cuota = principal * (1 * 4) / (4 - 1) ->
  generar_tabla_amortizacion principal 100 "efectiva" "vencida" 24 "anual"
                             fecha "anual"
  = Ok (bucle_tabla cuota 1 2 (int (12 * 30)) [1%Z; 2%Z] principal fecha).
Proof.
  intros Hc. unfold generar_tabla_amortizacion.
  rewrite tasa_periodo_100_anual, bind_Ok, FRECUENCIAS_anual, bind_Ok.
  rewrite dividir_Ok by lra. rewrite bind_Ok.
  replace (24 / 12) with (IZR 2) by lra.
  rewrite int_entero by lia.
  rewrite (cuota_frances_valor principal 1 2 4 cuota) by (simpl; lra || lia).
  reflexivity.
Qed.

(** The baseline table of 300 at 100 % per period over two periods. *)
Lemma tabla_300 (fecha : Z) :
  generar_tabla_amortizacion 300 100 "efectiva" "vencida" 24 "anual"
                             fecha "anual"
  = Ok [mkFila 1 (fecha + int (12 * 30)) 400 300 100 0 200;
        mkFila 2 (fecha + int (12 * 30) + int (12 * 30)) 400 200 200 0 0].
Proof.
  rewrite (generar_100_anual 300 400) by lra.
  rewrite bucle_tabla_sigue by (lia || lra).
  rewrite bucle_tabla_termina by lra.
  do 2 f_equal.
  - f_equal; (apply (redondear_valor _ _ 40000); lia || lra)
             || (apply (redondear_valor _ _ 30000); lia || lra)
             || (apply (redondear_valor _ _ 10000); lia || lra)
             || (apply (redondear_valor _ _ 20000); lia || lra).
  - f_equal.
    f_equal; (apply (redondear_valor _ _ 40000); lia || lra)
             || (apply (redondear_valor _ _ 20000); lia || lra).
Qed.

(** C5: where the excess goes on the same data in the two replay paths.
    The baseline table of 300 at 100 % per period over two periods, with a
    payment of 250 in period 1: the recurrence gives
    [300 - (400 - 300) - 250 = -50].
    [recalcular_tabla_con_abonos] sets the balance to 0 and leaves the
    principal portion at the instalment minus the interest, 100: the row
    pays 100 + 250 against a balance of 300.
    [aplicar_abonos_reducir_plazo] adds the negative excess to the principal
    portion, 50, as the claim says. *)
Lemma C5_recalculo_no_absorbe :
  exists tabla fila hermana,
    generar_tabla_amortizacion 300 100 "efectiva" "vencida" 24 "anual"
                               fecha_2024_01_01 "anual" = Ok tabla /\
    recalcular_tabla_con_abonos tabla [mkAbono 1 250] 1 ReducirPlazo
    = Ok [fila] /\
    Cuota fila = 400 /\ Interes fila = 300 /\ Abono_Extra fila = 250 /\
    Abono_Capital fila = 100 /\ Saldo fila = 0 /\
    aplicar_abonos_reducir_plazo 300 1 2 [mkAbono 1 250] fecha_2024_01_01 "anual"
    = Ok [hermana] /\
    Cuota hermana = 400 /\ Interes hermana = 300 /\ Abono_Extra hermana = 250 /\
    Abono_Capital hermana = 50 /\ Saldo hermana = 0.
Proof.
  eexists _, _, _. split; [apply tabla_300 |].
  unfold recalcular_tabla_con_abonos.
  cbn [Saldo Abono_Capital Cuota length].
  cbn [bucle_recalculo Periodo Fecha].
  change (get0 (abonos_dict [mkAbono 1 250]) 1) with 250.
  destruct (Rlt_dec (200 + 100 - (400 - (200 + 100) * 1) - 250) 0) as [_ | Hc];
    [| exfalso; lra].
  destruct (Rlt_dec 0 250) as [_ | Hc]; [| exfalso; lra].
  destruct (Rlt_dec 0 0) as [Hc | _]; [exfalso; lra |].
  rewrite bind_Ok.
  destruct (Rle_dec 0 0) as [_ | Hc]; [| exfalso; lra].
  split; [reflexivity |].
  cbn [Cuota Interes Abono_Extra Abono_Capital Saldo].
  split; [apply (redondear_valor _ _ 40000); lia || lra |].
  split; [apply (redondear_valor _ _ 30000); lia || lra |].
  split; [apply (redondear_valor _ _ 25000); lia || lra |].
  split; [apply (redondear_valor _ _ 10000); lia || lra |].
  split; [rewrite Rmax_left by lra; apply redondear_cero |].
  unfold aplicar_abonos_reducir_plazo, aplicar_abonos.
  rewrite (cuota_frances_valor 300 1 2 4 400) by (simpl; lra || lia).
  rewrite bind_Ok, FRECUENCIAS_anual, bind_Ok.
  set (d := abonos_dict [mkAbono 1 250]).
  assert (Hd1 : get0 d 1 = 250) by reflexivity.
  assert (Hb : saldo_bruto 1 300 400 250 = -50) by (unfold saldo_bruto; lra).
  rewrite bucle_abonos_ultima;
    [| lra | lia | rewrite Hd1, saldo_ajustado_negativo; rewrite ?Hb; lra].
  split; [reflexivity |].
  cbn [fila_abonos Cuota Interes Abono_Extra Abono_Capital Saldo].
  change (get0 _ 1) with 250.
  rewrite saldo_ajustado_negativo by (rewrite Hb; lra).
  unfold capital_ajustado. rewrite Hb.
  destruct (Rlt_dec (-50) 0) as [_ | Hc]; [| exfalso; lra].
  split; [apply (redondear_valor _ _ 40000); lia || lra |].
  split; [apply (redondear_valor _ _ 30000); lia || lra |].
  split; [apply (redondear_valor _ _ 25000); lia || lra |].
  split; [apply (redondear_valor _ _ 5000); lia || lra |].
  rewrite Rmax_left by lra. apply redondear_cero.
Qed.

(** * Further properties of the code *)

(** ** Rounding *)

Lemma diez_a_la_positivo (d : nat) : 0 < 10 ^ d.
Proof. apply pow_lt. lra. Qed.

Lemma redondear_decimal_entero (valor : R) (decimales : nat) :
  exists z : Z, redondear_decimal valor decimales = IZR z / 10 ^ decimales.
Proof.
  unfold redondear_decimal. cbv zeta.
  destruct (Rle_dec 0 valor) as [Hv | Hv].
  - eexists. reflexivity.
  - exists (- Zfloor (- valor * 10 ^ decimales + 1 / 2))%Z.
    rewrite opp_IZR. unfold Rdiv. ring.
Qed.

(** X2: rounding a rounded value changes nothing. *)
Theorem X2_redondear_decimal_idempotente (valor : R) (decimales : nat) :
  redondear_decimal (redondear_decimal valor decimales) decimales
  = redondear_decimal valor decimales.
Proof.
  pose proof (diez_a_la_positivo decimales) as Hf.
  assert (Hcent : forall z : Z,
             redondear_decimal (IZR z / 10 ^ decimales) decimales
             = IZR z / 10 ^ decimales).
  { intros z. unfold redondear_decimal. cbv zeta.
    set (f := 10 ^ decimales) in *.
    destruct (Rle_dec 0 (IZR z / f)) as [Hz | Hz].
    - replace (IZR z / f * f) with (IZR z) by (field; lra).
      rewrite (Zfloor_eq z); [reflexivity | lra].
    - replace (- (IZR z / f) * f) with (IZR (- z)) by (rewrite opp_IZR; field; lra).
      rewrite (Zfloor_eq (- z)); [| lra].
      rewrite opp_IZR. unfold Rdiv. ring. }
  destruct (redondear_decimal_entero valor decimales) as (z & Hz).
  rewrite Hz. apply Hcent.
Qed.

(** ** Rate conversions *)















(** ** avance 1/tasas.py *)







(** ** Shape of the generator's table *)

(** The rows of the generator loop, whatever the instalment and the rate:
    at most one per period to visit, numbered as the periods, each dated
    one step after the previous one. *)
Lemma bucle_tabla_forma (cuota r : R) (n dias : Z) :
  forall (m : nat) (k : Z) (saldo : R) (fecha : Z),
    let filas := bucle_tabla cuota r n dias (seqZ k (Z.of_nat m)) saldo fecha in
    (length filas <= m)%nat /\
    map Periodo filas = seqZ k (Z.of_nat (length filas)) /\
    map Fecha filas
    = map (fun j => (fecha + (j - k + 1) * dias)%Z)
          (seqZ k (Z.of_nat (length filas))).
Proof.
  induction m as [| m IH]; intros k saldo fecha; cbv zeta.
  - cbn [Z.of_nat]. rewrite seqZ_nil by lia. cbn [bucle_tabla length map].
    split; [lia |]. split; reflexivity.
  - rewrite (seqZ_cons k) by lia.
    replace (Z.pred (Z.of_nat (S m))) with (Z.of_nat m) by lia.
    cbn [bucle_tabla].
    destruct (Rle_dec _ 0) as [_ | _].
    + cbn [length map Periodo Fecha]. change (Z.of_nat 1) with 1%Z.
      rewrite seqZ_cons by lia. rewrite seqZ_nil by lia. cbn [map].
      split; [lia |]. split; [reflexivity |]. f_equal. lia.
    + match goal with
      | |- context [bucle_tabla cuota r n dias (seqZ (Z.succ k) (Z.of_nat m)) ?s ?f] =>
          destruct (IH (Z.succ k) s f) as (Hl & Hp & Hf)
      end.
      cbn [length map Periodo Fecha].
      rewrite (seqZ_cons k (Z.of_nat (S _))) by lia.
      rewrite Nat2Z.inj_succ, Z.pred_succ.
      rewrite Hp, Hf. cbn [map].
      split; [lia |]. split; [reflexivity |].
      f_equal; [lia |]. apply map_ext. intros j. ring.
Qed.

(** X9: whatever the input, a table the generator returns has at most
    [int(plazo_meses / meses_por_periodo)] rows; they are numbered
    1, 2, ... without gaps, and the date of row [k] is the start date plus
    [k * int(meses_por_periodo * 30)] days. *)
Theorem X9_tabla_periodos_y_fechas
    (monto tasa : R) (tipo_tasa tipo_pago : string) (plazo_meses : Z)
    (fp : string) (fecha_inicio : Z) (ft : string) (mp : R)
    (filas : list Fila) :
  FRECUENCIAS !! fp = Some mp ->
  generar_tabla_amortizacion monto tasa tipo_tasa tipo_pago plazo_meses
                             fp fecha_inicio ft = Ok filas ->
  (length filas <= Z.to_nat (int (IZR plazo_meses / mp)))%nat /\
  map Periodo filas = seqZ 1 (Z.of_nat (length filas)) /\
  map Fecha filas
  = map (fun k => (fecha_inicio + k * int (mp * 30))%Z)
        (seqZ 1 (Z.of_nat (length filas))).
Proof.
  unfold generar_tabla_amortizacion. intros Hfp H.
  destruct (tasa_periodo_credito _ _ _ _ _) as [r | e]; [| discriminate H].
  rewrite bind_Ok, (subscript_Some _ _ _ Hfp), bind_Ok in H.
  destruct (dividir _ mp) as [c | e] eqn:Hc; [| discriminate H].
  rewrite bind_Ok in H. cbv zeta in H.
  destruct (calcular_cuota_frances _ _ _) as [cuota | e]; [| discriminate H].
  rewrite bind_Ok in H. injection H as <-.
  assert (Hcv : c = IZR plazo_meses / mp).
  { unfold dividir in Hc. destruct (Req_dec_T mp 0); [discriminate Hc |].
    injection Hc as <-. reflexivity. }
  subst c.
  set (n := int (IZR plazo_meses / mp)).
  assert (Hseq : seqZ 1 n = seqZ 1 (Z.of_nat (Z.to_nat n))).
  { destruct (Z_le_dec 0 n) as [Hn | Hn].
    - rewrite Z2Nat.id by exact Hn. reflexivity.
    - rewrite !seqZ_nil by lia. reflexivity. }
  rewrite Hseq.
  destruct (bucle_tabla_forma cuota r n (int (mp * 30)) (Z.to_nat n) 1%Z
              monto fecha_inicio) as (Hl & Hp & Hf).
  split; [exact Hl |]. split; [exact Hp |].
  rewrite Hf. apply map_ext. intros j. ring.
Qed.

Lemma X9_witness :
  exists filas,
    FRECUENCIAS !! "mensual" = Some 1 /\
    generar_tabla_amortizacion 100000 12 "nominal" "vencida" 12 "mensual"
                               fecha_2024_01_01 "anual" = Ok filas /\
    (length filas <= Z.to_nat (int (12 / 1)))%nat /\
    map Periodo filas = seqZ 1 (Z.of_nat (length filas)) /\
    map Fecha filas
    = map (fun k => (fecha_2024_01_01 + k * int (1 * 30))%Z)
          (seqZ 1 (Z.of_nat (length filas))).
Proof.
  destruct escenario_primera_fila as (fila & resto & Hg & _).
  assert (Hf : FRECUENCIAS !! "mensual" = Some 1) by reflexivity.
  exists (fila :: resto). split; [exact Hf |]. split; [exact Hg |].
  exact (X9_tabla_periodos_y_fechas 100000 12 "nominal" "vencida" 12 "mensual"
           fecha_2024_01_01 "anual" 1 (fila :: resto) Hf Hg).
Defined.

(** ** Instalment = interest + principal portion, up to a cent *)

Lemma redondear_cota (x : R) :
  exists z : Z, redondear x = IZR z / 100 /\ - (1 / 2) <= IZR z - x * 100 <= 1 / 2.
Proof.
  rewrite redondear_despliegue.
  destruct (Rle_dec 0 x) as [Hx | Hx].
  - eexists. split; [reflexivity |].
    pose proof (Zfloor_bound (x * 100 + 1 / 2)). lra.
  - exists (- Zfloor (- x * 100 + 1 / 2))%Z. rewrite opp_IZR.
    split; [lra |].
    pose proof (Zfloor_bound (- x * 100 + 1 / 2)). lra.
Qed.






(** ** Shape of a replay *)

Lemma bucle_abonos_periodos_fechas op r n d dias :
  forall (t : nat) (saldo cuota : R) (fecha periodo : Z) (filas : list Fila),
    (Z.to_nat (n * 2 + 1 - periodo) <= t)%nat ->
    bucle_abonos op r n d dias saldo cuota fecha periodo = Ok filas ->
    map Periodo filas = seqZ periodo (Z.of_nat (length filas)) /\
    map Fecha filas
    = map (fun j => (fecha + (j - periodo + 1) * dias)%Z)
          (seqZ periodo (Z.of_nat (length filas))).
Proof.
  induction t as [| t IH]; intros saldo cuota fecha periodo filas Ht Hb.
  - rewrite bucle_abonos_fin in Hb by (intros [_ Hp]; lia).
    injection Hb as <-. split; reflexivity.
  - destruct (Rlt_dec (1 / 100) saldo) as [Hs | Hs];
      [destruct (Z_le_dec periodo (n * 2)) as [Hp | Hp] |].
    + rewrite bucle_abonos_paso in Hb by assumption.
      destruct (cuota_siguiente op r n d saldo cuota periodo) as [c1 | e];
        [| discriminate Hb].
      rewrite bind_Ok in Hb.
      destruct (Rle_dec _ _) as [_ | _].
      * injection Hb as <-. cbn [map length fila_abonos Periodo Fecha].
        change (Z.of_nat 1) with 1%Z. rewrite seqZ_cons by lia.
        cbn [seqZ map]. simpl. split; [reflexivity |]. f_equal. lia.
      * destruct (bucle_abonos op r n d dias _ c1 _ (periodo + 1)%Z)
          as [resto | e] eqn:Hr; [| discriminate Hb].
        rewrite bind_Ok in Hb. injection Hb as <-.
        assert (Ht' : (Z.to_nat (n * 2 + 1 - (periodo + 1)) <= t)%nat) by lia.
        destruct (IH _ _ _ _ _ Ht' Hr) as [IHp IHf].
        cbn [map length fila_abonos Periodo Fecha].
        rewrite (seqZ_cons periodo) by lia.
        replace (Z.pred (Z.of_nat (S (length resto))))
          with (Z.of_nat (length resto)) by lia.
        replace (Z.succ periodo) with (periodo + 1)%Z by lia.
        rewrite IHp, IHf. cbn [map]. split; [reflexivity |].
        f_equal; [lia |]. apply map_ext. intros j. ring.
    + rewrite bucle_abonos_fin in Hb by (intros [_ Hp']; contradiction).
      injection Hb as <-. split; reflexivity.
    + rewrite bucle_abonos_fin in Hb by (intros [Hs' _]; contradiction).
      injection Hb as <-. split; reflexivity.
Qed.

(** X12: whatever the input, the rows a replay returns are numbered
    1, 2, ... without gaps, and the date of row [k] is the start date plus
    [k * int(meses_por_periodo * 30)] days. *)
Theorem X12_replay_periodos_y_fechas
    (op : opcion) (saldo_inicial tasa_periodo : R) (n_periodos_inicial : Z)
    (abonos : list Abono) (fecha_inicio : Z) (frecuencia_pago : string)
    (mp : R) (filas : list Fila) :
  FRECUENCIAS !! frecuencia_pago = Some mp ->
  aplicar_abonos op saldo_inicial tasa_periodo n_periodos_inicial abonos
                 fecha_inicio frecuencia_pago = Ok filas ->
  map Periodo filas = seqZ 1 (Z.of_nat (length filas)) /\
  map Fecha filas
  = map (fun k => (fecha_inicio + k * int (mp * 30))%Z)
        (seqZ 1 (Z.of_nat (length filas))).
Proof.
  unfold aplicar_abonos. intros Hfp H.
  destruct (calcular_cuota_frances _ _ _) as [cuota | e]; [| discriminate H].
  rewrite bind_Ok, (subscript_Some _ _ _ Hfp), bind_Ok in H.
  destruct (bucle_abonos_periodos_fechas _ _ _ _ _ _ _ _ _ _ _
              (Nat.le_refl _) H) as [Hp Hf].
  rewrite Hp, Hf. split; [reflexivity |].
  apply map_ext. intros j. ring.
Qed.

Lemma X12_witness :
  exists filas,
    FRECUENCIAS !! "anual" = Some 12 /\
    aplicar_abonos ReducirPlazo 300 1 2 [mkAbono 1 1] fecha_2024_01_01 "anual"
    = Ok filas /\
    map Periodo filas = seqZ 1 (Z.of_nat (length filas)) /\
    map Fecha filas
    = map (fun k => (fecha_2024_01_01 + k * int (12 * 30))%Z)
          (seqZ 1 (Z.of_nat (length filas))).
Proof.
  destruct (ejemplo_plazo_300 fecha_2024_01_01) as (p1 & p2 & Hp).
  assert (Hf : FRECUENCIAS !! "anual" = Some 12) by reflexivity.
  exists [p1; p2]. split; [exact Hf |]. split; [exact Hp |].
  exact (X12_replay_periodos_y_fechas ReducirPlazo 300 1 2 [mkAbono 1 1]
           fecha_2024_01_01 "anual" 12 [p1; p2] Hf Hp).
Defined.

(** ** Unknown frequencies *)



(** ** Adding an ad-hoc payment *)

Lemma foldl_insert_lookup (l : list Abono) (d : gmap Z R) (k : Z) :
  foldl (fun d a => <[periodo a := monto a]> d) d l !! k =
  match abonos_dict l !! k with Some v => Some v | None => d !! k end.
Proof.
  unfold abonos_dict. revert d. induction l as [| b l IH]; intros d.
  - simpl. rewrite lookup_empty. reflexivity.
  - simpl. rewrite (IH (<[periodo b := monto b]> d)).
    rewrite (IH (<[periodo b := monto b]> ∅)).
    destruct (foldl _ ∅ l !! k) as [v |]; [reflexivity |].
    rewrite !lookup_insert. destruct (decide (periodo b = k)); [reflexivity |].
    rewrite lookup_empty. reflexivity.
Qed.

Lemma abonos_dict_cons (a : Abono) (l : list Abono) (k : Z) :
  abonos_dict (a :: l) !! k =
  match abonos_dict l !! k with
  | Some v => Some v
  | None => if decide (periodo a = k) then Some (monto a) else None
  end.
Proof.
  unfold abonos_dict at 1. simpl. rewrite foldl_insert_lookup.
  destruct (abonos_dict l !! k); [reflexivity |].
  rewrite lookup_insert. destruct (decide (periodo a = k)); [reflexivity |].
  apply lookup_empty.
Qed.

Lemma abonos_dict_snoc (l : list Abono) (a : Abono) :
  abonos_dict (l ++ [a]) = <[periodo a := monto a]> (abonos_dict l).
Proof. unfold abonos_dict. rewrite foldl_app. reflexivity. Qed.

(** Among payments of one period the dictionary keeps the last one of the
    list, and the stable sort keeps their order: sorting does not change the
    dictionary. *)
Lemma abonos_dict_insertar (a : Abono) (l : list Abono) (k : Z) :
  abonos_dict (insertar_por_periodo a l) !! k = abonos_dict (a :: l) !! k.
Proof.
  induction l as [| b l IH]; [reflexivity |].
  cbn [insertar_por_periodo].
  destruct (Z.leb_spec (periodo a) (periodo b)) as [Hle | Hlt]; [reflexivity |].
  rewrite (abonos_dict_cons b), IH, !abonos_dict_cons.
  destruct (abonos_dict l !! k); [reflexivity |].
  destruct (decide (periodo a = k)) as [Ha | Ha];
    destruct (decide (periodo b = k)) as [Hb | Hb]; try reflexivity.
  lia.
Qed.

Lemma abonos_dict_sorted (l : list Abono) :
  abonos_dict (sorted_por_periodo l) = abonos_dict l.
Proof.
  apply map_eq. intros k. induction l as [| a l IH]; [reflexivity |].
  cbn [sorted_por_periodo foldr]. fold (sorted_por_periodo l).
  rewrite abonos_dict_insertar, !abonos_dict_cons, IH. reflexivity.
Qed.

Lemma agregar_abono_adhoc_replay (fila : Fila) (resto : list Fila)
    (p : Z) (m r : R) (op : opcion) (fecha : Z) (fp : string) :
  agregar_abono_adhoc (fila :: resto) p m r op fecha fp =
  aplicar_abonos op (Saldo fila + Abono_Capital fila + Abono_Extra fila) r
    (Z.of_nat (length (fila :: resto)))
    (sorted_por_periodo (abonos_existentes (fila :: resto) ++ [mkAbono p m]))
    fecha fp.
Proof. destruct op; reflexivity. Qed.

Lemma aplicar_abonos_filas (op : opcion) (s r : R) (n : Z)
    (abonos : list Abono) (fecha : Z) (fp : string) (filas : list Fila) :
  aplicar_abonos op s r n abonos fecha fp = Ok filas ->
  forall f, f ∈ filas ->
    Abono_Extra f = redondear (get0 (abonos_dict abonos) (Periodo f)).
Proof.
  unfold aplicar_abonos. intros H f Hf.
  destruct (calcular_cuota_frances _ _ _) as [cuota | e]; [| discriminate H].
  rewrite bind_Ok in H.
  destruct (subscript FRECUENCIAS fp) as [mp | e]; [| discriminate H].
  rewrite bind_Ok in H.
  destruct (bucle_abonos_filas _ _ _ _ _ _ _ _ _ _ _ (Nat.le_refl _) H f Hf)
    as (s1 & c & fe & _ & Hfe & _).
  rewrite Hfe at 1. reflexivity.
Qed.

(** X16: in the table [agregar_abono_adhoc] returns, every row of the
    period of the new payment shows the new amount (rounded to cents),
    whatever the table showed in that period before: the new payment is the
    last one of its period in the sorted list and replaces an earlier one
    in the dictionary of the replay. *)
Theorem X16_abono_adhoc_reemplaza
    (tabla_actual : list Fila) (periodo_abono : Z) (monto_abono tasa_periodo : R)
    (opcion_recalculo : opcion) (fecha_inicio : Z) (frecuencia_pago : string)
    (filas : list Fila) :
  agregar_abono_adhoc tabla_actual periodo_abono monto_abono tasa_periodo
                      opcion_recalculo fecha_inicio frecuencia_pago = Ok filas ->
  forall f, f ∈ filas -> Periodo f = periodo_abono ->
    Abono_Extra f = redondear monto_abono.
Proof.
  intros H f Hf Hp. destruct tabla_actual as [| fila resto].
  - injection H as <-. apply elem_of_nil in Hf. contradiction.
  - rewrite agregar_abono_adhoc_replay in H.
    rewrite (aplicar_abonos_filas _ _ _ _ _ _ _ _ H f Hf).
    rewrite abonos_dict_sorted, abonos_dict_snoc, Hp. unfold get0.
    cbn [periodo monto]. rewrite lookup_insert_eq. reflexivity.
Qed.

(** A one-row table whose reconstruction gives a balance of 100, and a new
    payment of 50 in its only period. *)
Lemma ejemplo_adhoc (op : opcion) (fecha0 fecha : Z) :
  agregar_abono_adhoc [mkFila 1 fecha0 200 100 100 0 0] 1 50 1 op fecha "anual"
  = Ok [fila_abonos 1 (abonos_dict [mkAbono 1 50]) (int (12 * 30)) 100 200 fecha 1].
Proof.
  rewrite agregar_abono_adhoc_replay.
  cbn [Saldo Abono_Capital Abono_Extra abonos_existentes length].
  destruct (Rlt_dec 0 0) as [H | _]; [lra |].
  replace (0 + 100 + 0) with 100 by lra.
  change (Z.of_nat 1) with 1%Z.
  rewrite (ejemplo_100 op _ fecha).
  - rewrite abonos_dict_sorted. reflexivity.
  - rewrite abonos_dict_sorted. change (get0 _ 1) with 50. lra.
Qed.

Lemma X16_witness :
  exists filas f,
    agregar_abono_adhoc [mkFila 1 fecha_2024_01_01 200 100 100 0 0] 1 50 1
                        ReducirCuota fecha_2024_01_01 "anual" = Ok filas /\
    f ∈ filas /\ Periodo f = 1%Z /\ Abono_Extra f = redondear 50.
Proof.
  pose proof (ejemplo_adhoc ReducirCuota fecha_2024_01_01 fecha_2024_01_01) as H.
  assert (Hf : fila_abonos 1 (abonos_dict [mkAbono 1 50]) (int (12 * 30)) 100 200
                 fecha_2024_01_01 1
               ∈ [fila_abonos 1 (abonos_dict [mkAbono 1 50]) (int (12 * 30)) 100 200
                    fecha_2024_01_01 1]) by (apply list_elem_of_singleton; reflexivity).
  assert (Hp : Periodo (fila_abonos 1 (abonos_dict [mkAbono 1 50]) (int (12 * 30))
                          100 200 fecha_2024_01_01 1) = 1%Z) by reflexivity.
  eexists _, _. split; [exact H |]. split; [exact Hf |]. split; [exact Hp |].
  exact (X16_abono_adhoc_reemplaza _ 1 50 1 ReducirCuota fecha_2024_01_01 "anual"
           _ H _ Hf Hp).
Defined.





Lemma redondear_redondear (x : R) : redondear (redondear x) = redondear x.
Proof.
  destruct (redondear_cota x) as (z & -> & _).
  destruct (Z_le_dec 0 z) as [Hz | Hz].
  - apply (redondear_valor _ _ z); [exact Hz | reflexivity | reflexivity].
  - apply (redondear_valor_neg _ _ (- z)); [lia | |];
      rewrite opp_IZR; unfold Rdiv; ring.
Qed.

Lemma abonos_existentes_fuera (tabla : list Fila) (k : Z) :
  k ∉ map Periodo tabla -> abonos_dict (abonos_existentes tabla) !! k = None.
Proof.
  induction tabla as [| row rest IH]; intros Hk; [apply lookup_empty |].
  cbn [map] in Hk. apply not_elem_of_cons in Hk as [Hne Hk].
  cbn [abonos_existentes].
  destruct (Rlt_dec 0 (Abono_Extra row)); [| exact (IH Hk)].
  rewrite abonos_dict_cons, (IH Hk). cbn [periodo].
  destruct (decide (Periodo row = k)) as [Heq | _]; [| reflexivity].
  exfalso. apply Hne. symmetry. exact Heq.
Qed.

(** The payments read back from a table whose rows have different periods
    and no negative [Abono_Extra] give back, period by period, what the
    table shows. *)
Lemma abonos_existentes_get0 (tabla : list Fila) :
  NoDup (map Periodo tabla) ->
  forall g, g ∈ tabla -> 0 <= Abono_Extra g ->
    get0 (abonos_dict (abonos_existentes tabla)) (Periodo g) = Abono_Extra g.
Proof.
  induction tabla as [| row rest IH]; intros Hnd g Hg Hpos.
  - apply elem_of_nil in Hg. contradiction.
  - cbn [map] in Hnd. apply NoDup_cons in Hnd as [Hrow Hnd].
    apply elem_of_cons in Hg as [-> | Hg].
    + cbn [abonos_existentes]. unfold get0.
      destruct (Rlt_dec 0 (Abono_Extra row)) as [Hgt | Hngt].
      * rewrite abonos_dict_cons, (abonos_existentes_fuera _ _ Hrow).
        cbn [periodo monto]. rewrite decide_True by reflexivity. reflexivity.
      * rewrite (abonos_existentes_fuera _ _ Hrow). simpl. lra.
    + assert (Hne : Periodo row <> Periodo g).
      { intros Heq. apply Hrow. rewrite Heq.
        apply list_elem_of_fmap. exists g. split; [reflexivity | exact Hg]. }
      cbn [abonos_existentes].
      destruct (Rlt_dec 0 (Abono_Extra row)) as [Hgt | Hngt];
        [| exact (IH Hnd g Hg Hpos)].
      rewrite <- (IH Hnd g Hg Hpos). unfold get0.
      rewrite abonos_dict_cons. cbn [periodo].
      rewrite decide_False by exact Hne.
      destruct (abonos_dict (abonos_existentes rest) !! Periodo g); reflexivity.
Qed.

Lemma aplicar_abonos_periodos (op : opcion) (s r : R) (n : Z)
    (abonos : list Abono) (fecha : Z) (fp : string) (filas : list Fila) :
  aplicar_abonos op s r n abonos fecha fp = Ok filas ->
  map Periodo filas = seqZ 1 (Z.of_nat (length filas)).
Proof.
  unfold aplicar_abonos. intros H.
  destruct (calcular_cuota_frances _ _ _) as [cuota | e]; [| discriminate H].
  rewrite bind_Ok in H.
  destruct (subscript FRECUENCIAS fp) as [mp | e]; [| discriminate H].
  rewrite bind_Ok in H.
  exact (proj1 (bucle_abonos_periodos_fechas _ _ _ _ _ _ _ _ _ _ _
                  (Nat.le_refl _) H)).
Qed.

(** X18: adding an ad-hoc payment to a table that a replay with positive
    extraordinary payments produced keeps the extraordinary payments of the
    other periods: a row of the new table and a row of the old one with the
    same period, other than the period of the new payment, show the same
    [Abono_Extra]. *)
Theorem X18_abono_adhoc_conserva
    (op : opcion) (saldo_inicial tasa_periodo : R) (n_periodos_inicial : Z)
    (abonos : list Abono) (fecha_inicio : Z) (frecuencia_pago : string)
    (tabla_actual : list Fila)
    (periodo_abono : Z) (monto_abono tasa_periodo' : R) (op' : opcion)
    (fecha_inicio' : Z) (frecuencia_pago' : string) (filas : list Fila)
    (f g : Fila) :
  abonos_positivos abonos ->
  aplicar_abonos op saldo_inicial tasa_periodo n_periodos_inicial abonos
                 fecha_inicio frecuencia_pago = Ok tabla_actual ->
  agregar_abono_adhoc tabla_actual periodo_abono monto_abono tasa_periodo'
                      op' fecha_inicio' frecuencia_pago' = Ok filas ->
  f ∈ filas -> g ∈ tabla_actual ->
  Periodo f = Periodo g -> Periodo g <> periodo_abono ->
  Abono_Extra f = Abono_Extra g.
Proof.
  intros Hpos Htabla Hadhoc Hf Hg Hfg Hne.
  pose proof (aplicar_abonos_filas _ _ _ _ _ _ _ _ Htabla g Hg) as Hextra.
  assert (Hg0 : 0 <= Abono_Extra g).
  { rewrite Hextra. apply redondear_no_negativo.
    apply abonos_dict_no_negativo. exact Hpos. }
  assert (Hnd : NoDup (map Periodo tabla_actual)).
  { rewrite (aplicar_abonos_periodos _ _ _ _ _ _ _ _ Htabla). apply NoDup_seqZ. }
  destruct tabla_actual as [| fila resto]; [apply elem_of_nil in Hg; contradiction |].
  rewrite agregar_abono_adhoc_replay in Hadhoc.
  rewrite (aplicar_abonos_filas _ _ _ _ _ _ _ _ Hadhoc f Hf).
  rewrite abonos_dict_sorted, abonos_dict_snoc, Hfg.
  unfold get0 at 1. cbn [periodo monto].
  rewrite lookup_insert_ne by (intros Heq; apply Hne; symmetry; exact Heq).
  fold (get0 (abonos_dict (abonos_existentes (fila :: resto))) (Periodo g)).
  rewrite (abonos_existentes_get0 _ Hnd g Hg Hg0).
  rewrite Hextra. apply redondear_redondear.
Qed.

Lemma ejemplo_100_fila (fecha : Z) :
  fila_abonos 1 (abonos_dict [mkAbono 1 50]) (int (12 * 30)) 100 200 fecha 1
  = mkFila 1 (fecha + int (12 * 30)) 200 100 50 50 0.
Proof.
  unfold fila_abonos. change (get0 _ 1) with 50.
  rewrite saldo_ajustado_negativo by (unfold saldo_bruto; lra).
  unfold capital_ajustado, saldo_bruto.
  destruct (Rlt_dec _ 0) as [_ | H]; [| lra].
  rewrite Rmax_left by lra.
  rewrite (redondear_valor 200 200 20000) by (lia || lra).
  rewrite (redondear_valor (100 * 1) 100 10000) by (lia || lra).
  rewrite (redondear_valor _ 50 5000) by (lia || lra).
  rewrite (redondear_valor 50 50 5000) by (lia || lra).
  rewrite redondear_cero. reflexivity.
Qed.

Lemma ejemplo_adhoc_posterior (op : opcion) (fecha0 fecha : Z) :
  agregar_abono_adhoc [mkFila 1 fecha0 200 100 50 50 0] 5 10 1 op fecha "anual"
  = Ok [fila_abonos 1
          (abonos_dict (sorted_por_periodo ([mkAbono 1 50] ++ [mkAbono 5 10])))
          (int (12 * 30)) 100 200 fecha 1].
Proof.
  rewrite agregar_abono_adhoc_replay.
  cbn [Saldo Abono_Capital Abono_Extra abonos_existentes length].
  destruct (Rlt_dec 0 50) as [_ | H]; [| lra].
  replace (0 + 50 + 50) with 100 by lra.
  change (Z.of_nat 1) with 1%Z.
  apply ejemplo_100. rewrite abonos_dict_sorted.
  apply abonos_dict_no_negativo. repeat constructor; simpl; lra.
Qed.

Lemma X18_witness :
  exists tabla_actual filas f g,
    abonos_positivos [mkAbono 1 50] /\
    aplicar_abonos ReducirPlazo 100 1 1 [mkAbono 1 50] fecha_2024_01_01 "anual"
    = Ok tabla_actual /\
    agregar_abono_adhoc tabla_actual 5 10 1 ReducirCuota fecha_2024_01_01 "anual"
    = Ok filas /\
    f ∈ filas /\ g ∈ tabla_actual /\
    Periodo f = Periodo g /\ Periodo g <> 5%Z /\
    Abono_Extra f = Abono_Extra g.
Proof.
  assert (Ha : abonos_positivos [mkAbono 1 50])
    by (repeat constructor; simpl; lra).
  assert (He : 0 <= get0 (abonos_dict [mkAbono 1 50]) 1)
    by (change (get0 _ 1) with 50; lra).
  pose proof (ejemplo_100 ReducirPlazo [mkAbono 1 50] fecha_2024_01_01 He) as H1.
  rewrite ejemplo_100_fila in H1.
  pose proof (ejemplo_adhoc_posterior ReducirCuota
                (fecha_2024_01_01 + int (12 * 30)) fecha_2024_01_01) as H2.
  set (g := mkFila 1 (fecha_2024_01_01 + int (12 * 30)) 200 100 50 50 0) in *.
  set (f := fila_abonos 1 _ (int (12 * 30)) 100 200 fecha_2024_01_01 1) in *.
  assert (Hf : f ∈ [f]) by (apply list_elem_of_singleton; reflexivity).
  assert (Hg : g ∈ [g]) by (apply list_elem_of_singleton; reflexivity).
  assert (Hfg : Periodo f = Periodo g) by reflexivity.
  assert (Hne : Periodo g <> 5%Z) by (simpl; lia).
  exists [g], [f], f, g.
  split; [exact Ha |]. split; [exact H1 |]. split; [exact H2 |].
  split; [exact Hf |]. split; [exact Hg |]. split; [exact Hfg |].
  split; [exact Hne |].
  exact (X18_abono_adhoc_conserva ReducirPlazo 100 1 1 [mkAbono 1 50]
           fecha_2024_01_01 "anual" [g] 5 10 1 ReducirCuota fecha_2024_01_01
           "anual" [f] f g Ha H1 H2 Hf Hg Hfg Hne).
Defined.

(** ** Scheduled extraordinary payments *)

Lemma generar_abonos_programados_paso (presupuesto : nat)
    (fa fp : string) (ma mp monto : R) (n : Z) :
  FRECUENCIAS !! fa = Some ma -> FRECUENCIAS !! fp = Some mp ->
  generar_abonos_programados presupuesto fa fp monto n
  = Ok (bucle_programados presupuesto (int (ma / mp)) monto n (int (ma / mp))).
Proof.
  intros Ha Hp. unfold generar_abonos_programados.
  rewrite (subscript_Some _ _ _ Ha), bind_Ok, (subscript_Some _ _ _ Hp), bind_Ok.
  pose proof (FRECUENCIAS_positivas _ _ Hp).
  rewrite dividir_Ok by lra. rewrite bind_Ok. reflexivity.
Qed.

Lemma int_cociente_al_menos_1 (ma mp : R) :
  0 < mp -> mp <= ma -> (1 <= int (ma / mp))%Z.
Proof.
  intros Hmp Hle. unfold int.
  assert (Hq : 1 <= ma / mp).
  { apply (Rmult_le_reg_r mp); [lra |].
    replace (ma / mp * mp) with ma by (field; lra). lra. }
  destruct (Rle_dec 0 (ma / mp)) as [_ | Hn]; [| lra].
  apply Zfloor_lub. exact Hq.
Qed.

Lemma int_cociente_cero (ma mp : R) :
  0 < ma -> ma < mp -> int (ma / mp) = 0%Z.
Proof.
  intros Hma Hlt. unfold int.
  assert (Hq : 0 < ma / mp < 1).
  { split.
    - apply Rdiv_lt_0_compat; lra.
    - apply (Rmult_lt_reg_r mp); [lra |].
      replace (ma / mp * mp) with ma by (field; lra). lra. }
  destruct (Rle_dec 0 (ma / mp)) as [_ | Hn]; [| lra].
  apply Zfloor_eq. lra.
Qed.

(** With a step of at least one period the loop, started on a multiple of
    the step, appends one payment per multiple up to [n] and ends. *)
Lemma bucle_programados_multiplos (p : Z) (monto : R) (n : Z) :
  (1 <= p)%Z ->
  forall (presupuesto : nat) (i : Z),
    (Z.to_nat (n / p - i + 1) <= presupuesto)%nat ->
    bucle_programados presupuesto p monto n (i * p)
    = Some (map (fun j => mkAbono (j * p) monto) (seqZ i (n / p - i + 1))).
Proof.
  intros Hp. induction presupuesto as [| t IH]; intros i Ht.
  - assert (Hlt : (n / p < i)%Z) by lia.
    assert (Hn : (n < i * p)%Z).
    { destruct (Z_lt_dec n (i * p)) as [H | H]; [exact H |].
      assert (i <= n / p)%Z by (apply Z.div_le_lower_bound; lia). lia. }
    cbn [bucle_programados].
    destruct (Z.leb_spec (i * p) n) as [H | _]; [lia |].
    rewrite seqZ_nil by lia. reflexivity.
  - cbn [bucle_programados].
    destruct (Z.leb_spec (i * p) n) as [Hle | Hgt].
    + assert (Hi : (i <= n / p)%Z) by (apply Z.div_le_lower_bound; lia).
      replace (i * p + p)%Z with ((i + 1) * p)%Z by ring.
      rewrite IH by lia.
      rewrite (seqZ_cons i) by lia.
      replace (Z.succ i) with (i + 1)%Z by lia.
      replace (Z.pred (n / p - i + 1)) with (n / p - (i + 1) + 1)%Z by lia.
      reflexivity.
    + assert (Hlt : (n / p < i)%Z) by (apply Z.div_lt_upper_bound; lia).
      rewrite seqZ_nil by lia. reflexivity.
Qed.

Lemma presupuesto_suficiente (n p i : Z) (presupuesto : nat) :
  (1 <= p)%Z -> (1 <= i)%Z -> (Z.to_nat n <= presupuesto)%nat ->
  (Z.to_nat (n / p - i + 1) <= presupuesto)%nat.
Proof.
  intros Hp Hi Hn.
  destruct (Z_le_dec 0 n) as [H0 | H0].
  - assert (n / p <= n)%Z by (apply Z.div_le_upper_bound; nia). lia.
  - assert (n / p < 0)%Z by (apply Z.div_lt_upper_bound; lia). lia.
Qed.

(** X19: when the abono frequency is not shorter than the payment
    frequency, [generar_abonos_programados] ends within [n_periodos]
    iterations and returns one payment of [monto_abono] for each multiple
    of [int(meses_abono / meses_pago)] from the step itself up to
    [n_periodos], in ascending order. *)
Theorem X19_abonos_programados_multiplos
    (presupuesto : nat) (frecuencia_abono frecuencia_pago : string)
    (meses_abono meses_pago monto_abono : R) (n_periodos : Z) :
  FRECUENCIAS !! frecuencia_abono = Some meses_abono ->
  FRECUENCIAS !! frecuencia_pago = Some meses_pago ->
  meses_pago <= meses_abono ->
  (Z.to_nat n_periodos <= presupuesto)%nat ->
  generar_abonos_programados presupuesto frecuencia_abono frecuencia_pago
                             monto_abono n_periodos
  = Ok (Some (map (fun j => mkAbono (j * int (meses_abono / meses_pago)) monto_abono)
                  (seqZ 1 (n_periodos / int (meses_abono / meses_pago))))).
Proof.
  intros Ha Hp Hle Hpre.
  rewrite (generar_abonos_programados_paso _ _ _ _ _ _ _ Ha Hp).
  pose proof (FRECUENCIAS_positivas _ _ Hp) as Hmp.
  pose proof (int_cociente_al_menos_1 _ _ Hmp Hle) as Hstep.
  set (p := int (meses_abono / meses_pago)) in *.
  replace (bucle_programados presupuesto p monto_abono n_periodos p)
    with (bucle_programados presupuesto p monto_abono n_periodos (1 * p))
    by (f_equal; lia).
  rewrite (bucle_programados_multiplos p monto_abono n_periodos Hstep)
    by (apply presupuesto_suficiente; [exact Hstep | lia | exact Hpre]).
  replace (n_periodos / p - 1 + 1)%Z with (n_periodos / p)%Z by lia.
  reflexivity.
Qed.

Lemma X19_witness :
  FRECUENCIAS !! "trimestral" = Some 3 /\
  FRECUENCIAS !! "mensual" = Some 1 /\
  1 <= 3 /\ (Z.to_nat 12 <= 12)%nat /\
  generar_abonos_programados 12 "trimestral" "mensual" 500 12
  = Ok (Some (map (fun j => mkAbono (j * int (3 / 1)) 500)
                  (seqZ 1 (12 / int (3 / 1))))).
Proof.
  assert (Ha : FRECUENCIAS !! "trimestral" = Some 3) by reflexivity.
  assert (Hp : FRECUENCIAS !! "mensual" = Some 1) by reflexivity.
  assert (Hle : 1 <= 3) by lra.
  assert (Hpre : (Z.to_nat 12 <= 12)%nat) by (simpl; lia).
  split; [exact Ha |]. split; [exact Hp |]. split; [exact Hle |].
  split; [exact Hpre |].
  exact (X19_abonos_programados_multiplos 12 "trimestral" "mensual" 3 1 500 12
           Ha Hp Hle Hpre).
Defined.

(** With a step of zero and a period count that is not negative the loop
    condition never fails: every budget runs out. *)
Lemma bucle_programados_no_termina (monto : R) (n : Z) :
  (0 <= n)%Z ->
  forall presupuesto : nat, bucle_programados presupuesto 0 monto n 0 = None.
Proof.
  intros Hn. induction presupuesto as [| t IH]; cbn [bucle_programados];
    (destruct (Z.leb_spec 0 n) as [_ | H]; [| lia]).
  - reflexivity.
  - change (0 + 0)%Z with 0%Z. rewrite IH. reflexivity.
Qed.

(** X20: when the abono frequency is shorter than the payment frequency
    the step [int(meses_abono / meses_pago)] is zero, and with a period
    count that is not negative the loop of [generar_abonos_programados]
    does not end: no number of iterations is enough. *)
Theorem X20_abonos_programados_no_termina
    (presupuesto : nat) (frecuencia_abono frecuencia_pago : string)
    (meses_abono meses_pago monto_abono : R) (n_periodos : Z) :
  FRECUENCIAS !! frecuencia_abono = Some meses_abono ->
  FRECUENCIAS !! frecuencia_pago = Some meses_pago ->
  meses_abono < meses_pago ->
  (0 <= n_periodos)%Z ->
  generar_abonos_programados presupuesto frecuencia_abono frecuencia_pago
                             monto_abono n_periodos = Ok None.
Proof.
  intros Ha Hp Hlt Hn.
  rewrite (generar_abonos_programados_paso _ _ _ _ _ _ _ Ha Hp).
  pose proof (FRECUENCIAS_positivas _ _ Ha) as Hma.
  rewrite (int_cociente_cero _ _ Hma Hlt).
  rewrite (bucle_programados_no_termina monto_abono n_periodos Hn). reflexivity.
Qed.

Lemma X20_witness :
  FRECUENCIAS !! "mensual" = Some 1 /\
  FRECUENCIAS !! "trimestral" = Some 3 /\
  1 < 3 /\ (0 <= 12)%Z /\
  generar_abonos_programados 1000 "mensual" "trimestral" 500 12 = Ok None.
Proof.
  assert (Ha : FRECUENCIAS !! "mensual" = Some 1) by reflexivity.
  assert (Hp : FRECUENCIAS !! "trimestral" = Some 3) by reflexivity.
  assert (Hlt : 1 < 3) by lra.
  assert (Hn : (0 <= 12)%Z) by lia.
  split; [exact Ha |]. split; [exact Hp |]. split; [exact Hlt |].
  split; [exact Hn |].
  exact (X20_abonos_programados_no_termina 1000 "mensual" "trimestral" 1 3 500 12
           Ha Hp Hlt Hn).
Defined.

Lemma validar_abonos_true (abonos : list Abono) (n : Z) :
  Forall (fun a => (1 <= periodo a <= n)%Z /\ 0 < monto a) abonos ->
  validar_abonos abonos n = true.
Proof.
  induction 1 as [| a l [[H1 H2] Hm] _ IH]; [reflexivity |].
  cbn [validar_abonos].
  destruct (Z.ltb_spec (periodo a) 1) as [H | _]; [lia |].
  destruct (Z.ltb_spec n (periodo a)) as [H | _]; [lia |].
  cbn [orb]. destruct (Rle_dec (monto a) 0) as [H | _]; [lra | exact IH].
Qed.

(** X21: the payments [generar_abonos_programados] returns for a positive
    amount (abono frequency not shorter than the payment frequency) pass
    [validar_abonos] for the same period count. *)
Theorem X21_abonos_programados_validos
    (presupuesto : nat) (frecuencia_abono frecuencia_pago : string)
    (meses_abono meses_pago monto_abono : R) (n_periodos : Z) :
  FRECUENCIAS !! frecuencia_abono = Some meses_abono ->
  FRECUENCIAS !! frecuencia_pago = Some meses_pago ->
  meses_pago <= meses_abono ->
  0 < monto_abono ->
  (Z.to_nat n_periodos <= presupuesto)%nat ->
  exists abonos,
    generar_abonos_programados presupuesto frecuencia_abono frecuencia_pago
                               monto_abono n_periodos = Ok (Some abonos) /\
    validar_abonos abonos n_periodos = true /\
    abonos_positivos abonos.
Proof.
  intros Ha Hp Hle Hm Hpre.
  rewrite (generar_abonos_programados_paso _ _ _ _ _ _ _ Ha Hp).
  pose proof (FRECUENCIAS_positivas _ _ Hp) as Hmp.
  pose proof (int_cociente_al_menos_1 _ _ Hmp Hle) as Hstep.
  set (p := int (meses_abono / meses_pago)) in *.
  replace (bucle_programados presupuesto p monto_abono n_periodos p)
    with (bucle_programados presupuesto p monto_abono n_periodos (1 * p))
    by (f_equal; lia).
  rewrite (bucle_programados_multiplos p monto_abono n_periodos Hstep)
    by (apply presupuesto_suficiente; [exact Hstep | lia | exact Hpre]).
  eexists. split; [reflexivity |].
  assert (Hall : Forall (fun a => (1 <= periodo a <= n_periodos)%Z /\ 0 < monto a)
                   (map (fun j => mkAbono (j * p) monto_abono)
                        (seqZ 1 (n_periodos / p - 1 + 1)))).
  { apply Forall_fmap, Forall_forall. intros j Hj.
    apply elem_of_seqZ in Hj. cbn [periodo monto compose].
    pose proof (Z.mul_div_le n_periodos p ltac:(lia)) as Hdiv.
    split; [| exact Hm]. split; nia. }
  split; [apply validar_abonos_true; exact Hall |].
  unfold abonos_positivos. eapply Forall_impl; [exact Hall |].
  intros a [_ H]. exact H.
Qed.

Lemma X21_witness :
  FRECUENCIAS !! "trimestral" = Some 3 /\
  FRECUENCIAS !! "mensual" = Some 1 /\
  1 <= 3 /\ 0 < 500 /\ (Z.to_nat 12 <= 12)%nat /\
  exists abonos,
    generar_abonos_programados 12 "trimestral" "mensual" 500 12
    = Ok (Some abonos) /\
    validar_abonos abonos 12 = true /\
    abonos_positivos abonos.
Proof.
  assert (Ha : FRECUENCIAS !! "trimestral" = Some 3) by reflexivity.
  assert (Hp : FRECUENCIAS !! "mensual" = Some 1) by reflexivity.
  assert (Hle : 1 <= 3) by lra.
  assert (Hm : 0 < 500) by lra.
  assert (Hpre : (Z.to_nat 12 <= 12)%nat) by (simpl; lia).
  split; [exact Ha |]. split; [exact Hp |]. split; [exact Hle |].
  split; [exact Hm |]. split; [exact Hpre |].
  exact (X21_abonos_programados_validos 12 "trimestral" "mensual" 3 1 500 12
           Ha Hp Hle Hm Hpre).
Defined.

(** ** The savings comparison *)



(** ** A term shorter than one payment period *)




(** ** [recalcular_tabla_con_abonos] *)

Lemma bucle_recalculo_forma op r d largo :
  forall (tabla : list Fila) (saldo cuota : R) (filas : list Fila),
    bucle_recalculo op r d largo tabla saldo cuota = Ok filas ->
    (length filas <= length tabla)%nat /\
    (tabla <> [] -> filas <> []) /\
    map Periodo filas = take (length filas) (map Periodo tabla) /\
    map Fecha filas = take (length filas) (map Fecha tabla) /\
    Forall (fun f => 0 <= Saldo f) filas.
Proof.
  induction tabla as [| row resto IH]; intros saldo cuota filas H.
  - injection H as <-. repeat split; try reflexivity; try constructor.
    intros Hne. contradiction.
  - cbn [bucle_recalculo] in H. cbv zeta in H.
    match type of H with (?x ≫= _) = _ => destruct x as [c1 | e] end;
      [| discriminate H].
    rewrite bind_Ok in H.
    assert (Hs : forall x, 0 <= redondear (Rmax 0 x))
      by (intros x; apply redondear_no_negativo, Rmax_l).
    destruct (Rle_dec _ 0) as [_ | _].
    + injection H as <-. cbn [length map take Periodo Fecha].
      split; [lia |]. split; [discriminate |].
      rewrite !take_0. split; [reflexivity |]. split; [reflexivity |].
      constructor; [apply Hs | constructor].
    + match type of H with (?x ≫= _) = _ => destruct x as [fs | e] eqn:Hr end;
        [| discriminate H].
      rewrite bind_Ok in H. injection H as <-.
      destruct (IH _ _ _ Hr) as (Hl & _ & Hp & Hf & Hall).
      cbn [length map take Periodo Fecha].
      split; [lia |]. split; [discriminate |].
      rewrite <- Hp, <- Hf. split; [reflexivity |]. split; [reflexivity |].
      constructor; [apply Hs | exact Hall].
Qed.

(** X26: a table [recalcular_tabla_con_abonos] returns has at least one
    row and at most as many as the original; its periods and dates are
    those of the first rows of the original, in order, and no balance in it
    is negative. *)
Theorem X26_recalculo_forma
    (tabla_original : list Fila) (abonos : list Abono) (tasa_periodo : R)
    (opcion_recalculo : opcion) (filas : list Fila) :
  recalcular_tabla_con_abonos tabla_original abonos tasa_periodo opcion_recalculo
  = Ok filas ->
  (1 <= length filas <= length tabla_original)%nat /\
  map Periodo filas = take (length filas) (map Periodo tabla_original) /\
  map Fecha filas = take (length filas) (map Fecha tabla_original) /\
  Forall (fun f => 0 <= Saldo f) filas.
Proof.
  unfold recalcular_tabla_con_abonos. intros H.
  destruct tabla_original as [| primera resto]; [discriminate H |].
  cbv zeta in H.
  destruct (bucle_recalculo_forma _ _ _ _ _ _ _ _ H) as (Hl & Hne & Hp & Hf & Hall).
  split; [| split; [exact Hp | split; [exact Hf | exact Hall]]].
  split; [| exact Hl].
  destruct filas as [| f fs]; [exfalso; apply Hne; [discriminate | reflexivity] |].
  simpl. lia.
Qed.

Lemma bucle_recalculo_plazo_Ok r d largo :
  forall (tabla : list Fila) (saldo cuota : R),
    exists filas, bucle_recalculo ReducirPlazo r d largo tabla saldo cuota = Ok filas.
Proof.
  induction tabla as [| row resto IH]; intros saldo cuota.
  - eexists. reflexivity.
  - cbn [bucle_recalculo]. cbv zeta.
    match goal with
    | |- exists _, (?x ≫= _) = _ =>
        assert (Hc : x = Ok cuota)
          by (destruct (Rlt_dec 0 _); [destruct (Rlt_dec 0 _) |]; reflexivity)
    end.
    rewrite Hc, bind_Ok.
    destruct (Rle_dec _ 0) as [_ | _]; [eexists; reflexivity |].
    match goal with
    | |- exists _, (bucle_recalculo _ _ _ _ _ ?s ?c ≫= _) = _ =>
        destruct (IH s c) as (fs & ->)
    end.
    rewrite bind_Ok. eexists. reflexivity.
Qed.

Lemma recalcular_plazo_Ok (primera : Fila) (resto : list Fila)
    (abonos : list Abono) (tasa_periodo : R) :
  exists filas,
    recalcular_tabla_con_abonos (primera :: resto) abonos tasa_periodo ReducirPlazo
    = Ok filas.
Proof.
  unfold recalcular_tabla_con_abonos. cbv zeta.
  apply bucle_recalculo_plazo_Ok.
Qed.

Lemma X26_witness :
  exists filas,
    recalcular_tabla_con_abonos
      [mkFila 1 fecha_2024_01_01 200 100 100 0 0] [mkAbono 1 50] 1 ReducirPlazo
    = Ok filas /\
    (1 <= length filas
     <= length [mkFila 1 fecha_2024_01_01 200 100 100 0 0])%nat /\
    map Periodo filas
    = take (length filas)
        (map Periodo [mkFila 1 fecha_2024_01_01 200 100 100 0 0]) /\
    map Fecha filas
    = take (length filas)
        (map Fecha [mkFila 1 fecha_2024_01_01 200 100 100 0 0]) /\
    Forall (fun f => 0 <= Saldo f) filas.
Proof.
  destruct (recalcular_plazo_Ok (mkFila 1 fecha_2024_01_01 200 100 100 0 0) []
              [mkAbono 1 50] 1) as (filas & H).
  exists filas. split; [exact H |].
  exact (X26_recalculo_forma [mkFila 1 fecha_2024_01_01 200 100 100 0 0]
           [mkAbono 1 50] 1 ReducirPlazo filas H).
Defined.

